(** * Co-Reader: anchoring and annotation store

    A shallow embedding of the anchoring utilities (lib/anchoring.ts,
    lib/selection.ts) and of the localStorage-backed annotation store
    (lib/highlights.ts, lib/documents.ts, lib/vocabulary.ts, lib/ai.ts),
    followed by the properties established about them.

    Conventions.
    - A JavaScript string is a sequence of UTF-16 code units; it is modelled
      as a [string], one character per code unit.
    - JavaScript numbers that hold offsets and lengths are integers here
      ([Z]); [indexOf] keeps its [-1] for "not found".
    - [null] results are [None].
    - Pixel coordinates are opaque to every function modelled here (they are
      only copied), so they are kept as integers.
    - Every store function is modelled in the browser (the
      [typeof window === 'undefined'] guards are not taken) and over
      well-formed storage: [JSON.parse (JSON.stringify x)] followed by the
      [new Date (...)] revival gives [x] back. *)

From Stdlib Require Import ZArith List Bool Lia Ascii String DecimalString DecimalNat.
Import ListNotations.
Set Warnings "-register-all".
Open Scope string_scope.
Open Scope Z_scope.

(* ================================================================== *)
(** ** JavaScript string primitives *)
(* ================================================================== *)

(** The first [n] code units of [s]. *)
Fixpoint take (n : nat) (s : string) : string :=
  match n, s with
  | O, _ => EmptyString
  | S _, EmptyString => EmptyString
  | S n', String c rest => String c (take n' rest)
  end.

(** [s] without its first [n] code units. *)
Fixpoint drop (n : nat) (s : string) : string :=
  match n, s with
  | O, _ => s
  | S _, EmptyString => EmptyString
  | S n', String _ rest => drop n' rest
  end.

(** [s.length] *)
Definition strlen (s : string) : Z := Z.of_nat (String.length s).

(** [s.slice(b, e)]: a negative index counts from the end, both indices are
    clamped to [0 .. s.length], and an empty string results when the end does
    not lie after the start. *)
Definition slice (s : string) (b e : Z) : string :=
  let len := strlen s in
  let from := if b <? 0 then Z.max (len + b) 0 else Z.min b len in
  let to := if e <? 0 then Z.max (len + e) 0 else Z.min e len in
  take (Z.to_nat (Z.max (to - from) 0)) (drop (Z.to_nat from) s).

(** [s.slice(b)] *)
Definition sliceFrom (s : string) (b : Z) : string := slice s b (strlen s).

(** [hay.indexOf(needle)]: position of the first occurrence, [-1] if none. *)
Fixpoint indexOf (hay needle : string) : Z :=
  if String.prefix needle hay then 0
  else match hay with
       | EmptyString => -1
       | String _ rest =>
           let r := indexOf rest needle in
           if r =? -1 then -1 else r + 1
       end.

(** [hay.includes(needle)] *)
Fixpoint includes (hay needle : string) : bool :=
  String.prefix needle hay
  || match hay with
     | EmptyString => false
     | String _ rest => includes rest needle
     end.

(** Whether the code unit [c] occurs in [s]. *)
Fixpoint occursIn (c : ascii) (s : string) : bool :=
  match s with
  | EmptyString => false
  | String x rest => Ascii.eqb x c || occursIn c rest
  end.

(** [parts.join(sep)] *)
Fixpoint join (sep : string) (parts : list string) : string :=
  match parts with
  | [] => ""
  | [p] => p
  | p :: rest => p ++ sep ++ join sep rest
  end.

(** Template-literal rendering of a non-negative integer. *)
Definition showNat (n : nat) : string := NilEmpty.string_of_uint (Nat.to_uint n).

(* ================================================================== *)
(** ** lib/types.ts *)
(* ================================================================== *)

Record BoundingRect := mkRect {
  top : Z;
  left : Z;
  width : Z;
  height : Z
}.

Record PdfAnchor := mkPdfAnchor {
  pdfPageNumber : Z;
  pdfStartOffset : Z;
  pdfEndOffset : Z;
  pdfContext : string
}.

Record HtmlAnchor := mkHtmlAnchor {
  htmlXpath : string;
  htmlStartOffset : Z;
  htmlEndOffset : Z;
  htmlContext : string
}.

(** [type Anchor = PdfAnchor | HtmlAnchor], discriminated by the [type] tag. *)
Inductive Anchor :=
| AnchorPdf (a : PdfAnchor)
| AnchorHtml (a : HtmlAnchor).

Definition anchorContext (a : Anchor) : string :=
  match a with
  | AnchorPdf p => pdfContext p
  | AnchorHtml h => htmlContext h
  end.

Inductive HighlightType := insight | definition | question.

Inductive SourceType := pdf | url.

Inductive AIOutputType := clarify | assumptions | questions | synthesis.

Record Document := mkDocument {
  docId : string;
  docTitle : string;
  docSourceType : SourceType;
  docSourcePath : string;
  docCreatedAt : Z
}.

Record Highlight := mkHighlight {
  hlId : string;
  hlDocumentId : string;
  hlType : HighlightType;
  hlText : string;
  hlAnchor : Anchor;
  hlCreatedAt : Z
}.

Record Note := mkNote {
  noteId : string;
  noteHighlightId : string;
  noteContent : string;
  noteCreatedAt : Z
}.

Record VocabularyEntry := mkVocabularyEntry {
  vocId : string;
  vocWord : string;
  vocContextSentence : string;
  vocDocumentId : string;
  vocUserNote : option string;
  vocDefinition : option string;
  vocCreatedAt : Z
}.

Record AIOutput := mkAIOutput {
  aiId : string;
  aiHighlightId : string;
  aiType : AIOutputType;
  aiContent : string;
  aiCreatedAt : Z
}.

(* ================================================================== *)
(** ** The rendered document, as the anchoring code observes it *)
(* ================================================================== *)

(** A DOM subtree: text nodes and elements.  [tagName] is what the DOM
    reports for the element. *)
Inductive Node :=
| TextNode (data : string)
| ElementNode (tagName : string) (childNodes : list Node).

Definition concatStrings (l : list string) : string :=
  fold_right String.append "" l.

(** [node.textContent]: the text-node descendants in document order. *)
Fixpoint textContent (n : Node) : string :=
  match n with
  | TextNode d => d
  | ElementNode _ kids => concatStrings (map textContent kids)
  end.

Definition isTextNode (n : Node) : bool :=
  match n with TextNode _ => true | ElementNode _ _ => false end.

(** [node.firstChild] *)
Definition firstChild (n : Node) : option Node :=
  match n with
  | TextNode _ => None
  | ElementNode _ kids => hd_error kids
  end.

(** A node of the document is addressed by the child indices that lead to it
    from the document element; the empty path is the document element. *)
Definition NodePath := list nat.

Fixpoint nodeAt (root : Node) (path : NodePath) : option Node :=
  match path with
  | [] => Some root
  | i :: rest =>
      match root with
      | TextNode _ => None
      | ElementNode _ kids =>
          match nth_error kids i with
          | Some c => nodeAt c rest
          | None => None
          end
      end
  end.

(** [node.parentNode], on paths. *)
Definition parentPath (p : NodePath) : NodePath := removelast p.

(** A live DOM [Range]: two boundary points, each a container node and an
    offset into it (a code-unit offset for a text node, a child index for an
    element). *)
Record Range := mkRange {
  startContainer : NodePath;
  startOffset : nat;
  endContainer : NodePath;
  endOffset : nat
}.

(** Number of code units of the document that precede the node at [path]
    in document order. *)
Fixpoint charsBefore (root : Node) (path : NodePath) : nat :=
  match path with
  | [] => O
  | i :: rest =>
      match root with
      | TextNode _ => O
      | ElementNode _ kids =>
          (String.length (concatStrings (map textContent (firstn i kids)))
           + match nth_error kids i with
             | Some c => charsBefore c rest
             | None => O
             end)%nat
      end
  end.

(** Number of code units of the document that precede a boundary point. *)
Definition boundaryPosition (root : Node) (path : NodePath) (offset : nat) : nat :=
  (charsBefore root path
   + match nodeAt root path with
     | Some (TextNode d) => Nat.min offset (String.length d)
     | Some (ElementNode _ kids) =>
         String.length (concatStrings (map textContent (firstn offset kids)))
     | None => O
     end)%nat.

(** [range.toString()]: the text between the two boundary points. *)
Definition rangeToString (root : Node) (r : Range) : string :=
  let s := boundaryPosition root (startContainer r) (startOffset r) in
  let e := boundaryPosition root (endContainer r) (endOffset r) in
  take (e - s) (drop s (textContent root)).

Fixpoint commonPrefix (p q : NodePath) : NodePath :=
  match p, q with
  | i :: p', j :: q' => if Nat.eqb i j then i :: commonPrefix p' q' else []
  | _, _ => []
  end.

(** [range.commonAncestorContainer] *)
Definition commonAncestorContainer (r : Range) : NodePath :=
  commonPrefix (startContainer r) (endContainer r).

(** ASCII lower-casing, as [tagName.toLowerCase()] acts on tag names. *)
Definition lowerAscii (c : ascii) : ascii :=
  let n := nat_of_ascii c in
  if (Nat.leb 65 n && Nat.leb n 90)%bool then ascii_of_nat (n + 32) else c.

Fixpoint toLowerCase (s : string) : string :=
  match s with
  | EmptyString => EmptyString
  | String c rest => String (lowerAscii c) (toLowerCase rest)
  end.

(** One rectangle-bearing [<span>] of a rendered PDF text layer. *)
Record Span := mkSpan {
  spanTextContent : string;
  spanBoundingClientRect : BoundingRect
}.

(** [textLayerElement.querySelectorAll('span')], in document order. *)
Definition TextLayer := list Span.

(* ================================================================== *)
(** ** lib/selection.ts *)
(* ================================================================== *)

(** [extractContext(range, contextLength = 30)] *)
Definition extractContext (doc : Node) (range : Range) (contextLength : Z) : string :=
  let container := nodeAt doc (commonAncestorContainer range) in
  let textContent :=
    match container with
    | Some n => textContent n
    | None => ""
    end in
  let selectedText := rangeToString doc range in
  let index := indexOf textContent selectedText in
  if index =? -1 then selectedText
  else
    let start := Z.max 0 (index - contextLength) in
    let end_ := Z.min (strlen textContent) (index + strlen selectedText + contextLength) in
    slice textContent start end_.

(* ================================================================== *)
(** ** lib/anchoring.ts *)
(* ================================================================== *)

(** The 1-based position of child [i] among the element siblings that
    precede it and carry the same node name. *)
Definition siblingIndex (kids : list Node) (i : nat) (name : string) : nat :=
  S (List.length
       (filter (fun sib =>
                  match sib with
                  | ElementNode t _ => String.eqb t name
                  | TextNode _ => false
                  end)
               (firstn i kids))).

(** The [tag[index]] parts of [getXPath], outermost first: [n] is an element
    on the chain, [index] its sibling index and [path] what remains of the
    chain below it.  (The source walks the same chain upwards through
    [parentNode] and [unshift]s each part.) *)
Fixpoint xpathParts (path : NodePath) (n : Node) (index : nat) : list string :=
  match n with
  | TextNode _ => []
  | ElementNode tag kids =>
      (toLowerCase tag ++ "[" ++ showNat index ++ "]")
      :: match path with
         | [] => []
         | i :: rest =>
             match nth_error kids i with
             | Some (ElementNode t k as c) => xpathParts rest c (siblingIndex kids i t)
             | _ => []
             end
         end
  end.

(** [getXPath(node)]: a text node is replaced by its parent first. *)
Definition getXPath (doc : Node) (node : NodePath) : string :=
  let node :=
    match nodeAt doc node with
    | Some (TextNode _) => parentPath node
    | _ => node
    end in
  "/" ++ join "/" (xpathParts node doc 1).

(** WebIDL conversion of a JavaScript integer to [unsigned long], as applied
    to the offset argument of [Range.setStart] and [Range.setEnd]. *)
Definition toUint32 (z : Z) : Z := z mod 2 ^ 32.

(** The range built by [doc.createRange()], [setStart] and [setEnd] on one
    text node: the node's text and the two offsets. *)
Record TextRange := mkTextRange {
  rangeNodeText : string;
  rangeStart : Z;
  rangeEnd : Z
}.

(** The text a [TextRange] covers. *)
Definition textRangeToString (r : TextRange) : string :=
  slice (rangeNodeText r) (rangeStart r) (rangeEnd r).

(** [range.setStart(textNode, s); range.setEnd(textNode, e)] on a fresh
    range.  Either call throws [IndexSizeError] ([None]) when its offset
    exceeds the node's length; an end before the start collapses the range
    onto the end. *)
Definition setStartThenEnd (nodeText : string) (s e : Z) : option TextRange :=
  let s' := toUint32 s in
  let e' := toUint32 e in
  if s' >? strlen nodeText then None
  else if e' >? strlen nodeText then None
  else Some (mkTextRange nodeText (if e' <? s' then e' else s') e').

(** [rects.length > 0 ? rects : null] *)
Definition nonEmptyOrNull {A : Type} (rects : list A) : option (list A) :=
  match rects with
  | [] => None
  | _ :: _ => Some rects
  end.

(** The span loop of [resolvePdfAnchor]: [currentOffset] runs over the
    spans' text lengths and a span contributes its rectangle when
    [spanEnd > startOffset && spanStart < endOffset]. *)
Fixpoint pdfSpanRects (spans : TextLayer) (currentOffset startOffset endOffset : Z)
  : list BoundingRect :=
  match spans with
  | [] => []
  | span :: rest =>
      let spanText := spanTextContent span in
      let spanStart := currentOffset in
      let spanEnd := currentOffset + strlen spanText in
      (if (spanEnd >? startOffset) && (spanStart <? endOffset)
       then [spanBoundingClientRect span]
       else [])
      ++ pdfSpanRects rest spanEnd startOffset endOffset
  end.

(** The part of [resolvePdfAnchor] that follows the context check. *)
Definition pdfOffsetGeometry (anchor : PdfAnchor) (spans : TextLayer)
  : option (list BoundingRect) :=
  nonEmptyOrNull (pdfSpanRects spans 0 (pdfStartOffset anchor) (pdfEndOffset anchor)).

(** [resolvePdfAnchor(anchor, pageTextContent, textLayerElement)] *)
Definition resolvePdfAnchor (anchor : PdfAnchor) (pageTextContent : string)
    (textLayerElement : option TextLayer) : option (list BoundingRect) :=
  match textLayerElement with
  | None => None
  | Some spans =>
      let contextCore := slice (pdfContext anchor) 10 (-10) in
      if negb (includes pageTextContent contextCore) then None
      else pdfOffsetGeometry anchor spans
  end.

(** [createPdfAnchor(pageNumber, startOffset, endOffset, context)] *)
Definition createPdfAnchor (pageNumber startOffset endOffset : Z) (context : string)
  : PdfAnchor :=
  mkPdfAnchor pageNumber startOffset endOffset context.

(** [createHtmlAnchor(range)] *)
Definition createHtmlAnchor (doc : Node) (range : Range) : HtmlAnchor :=
  let container := startContainer range in
  let xpath := getXPath doc container in
  let context := extractContext doc range 30 in
  mkHtmlAnchor xpath (Z.of_nat (startOffset range)) (Z.of_nat (endOffset range)) context.

(** The [type] argument of [createAnchor]. *)
Inductive AnchorType := TypeHtml | TypePdf.

(** [createAnchor(range, type, pageNumber, pageText)]; the two last
    arguments are read for [type === 'pdf'] only. *)
Definition createAnchor (doc : Node) (range : Range) (type : AnchorType)
    (pageNumber : Z) (pageText : string) : Anchor :=
  match type with
  | TypeHtml => AnchorHtml (createHtmlAnchor doc range)
  | TypePdf =>
      let selectedText := rangeToString doc range in
      let context := extractContext doc range 30 in
      let startOffset := indexOf pageText selectedText in
      let endOffset := startOffset + strlen selectedText in
      AnchorPdf (createPdfAnchor pageNumber startOffset endOffset context)
  end.

Section Resolution.

(** The browser's XPath engine, [document.evaluate(xpath, document, null,
    FIRST_ORDERED_NODE_TYPE, null).singleNodeValue]; [None] stands both
    for a [null] node and for a thrown error, which [resolveXPath]
    catches. *)
Variable evaluate : string -> Node -> option Node.

(** The layout engine, [range.getClientRects()], for a range on one text
    node. *)
Variable getClientRects : TextRange -> list BoundingRect.

(** [resolveXPath(xpath, document)] *)
Definition resolveXPath (xpath : string) (document : Node) : option Node :=
  evaluate xpath document.

(** The text node [resolveHtmlAnchor] works on: the resolved node itself
    when it is a text node, else its first child when that is one. *)
Definition anchoredTextNode (node : Node) : option string :=
  match node with
  | TextNode d => Some d
  | ElementNode _ _ =>
      match firstChild node with
      | Some (TextNode d) => Some d
      | _ => None
      end
  end.

(** The part of [resolveHtmlAnchor] that follows the context check, up to
    the range handed to the layout engine. *)
Definition htmlOffsetRange (anchor : HtmlAnchor) (nodeText : string)
  : option TextRange :=
  setStartThenEnd nodeText (htmlStartOffset anchor) (htmlEndOffset anchor).

(** [resolveHtmlAnchor], up to the range handed to the layout engine. *)
Definition resolveHtmlRange (anchor : HtmlAnchor) (doc : Node) : option TextRange :=
  match resolveXPath (htmlXpath anchor) doc with
  | None => None
  | Some node =>
      match anchoredTextNode node with
      | None => None
      | Some nodeText =>
          if negb (includes nodeText (slice (htmlContext anchor) 10 (-10)))
          then None
          else htmlOffsetRange anchor nodeText
      end
  end.

(** [resolveHtmlAnchor(anchor, doc)]; the loop over [clientRects] copies
    the four fields of each rectangle. *)
Definition resolveHtmlAnchor (anchor : HtmlAnchor) (doc : Node)
  : option (list BoundingRect) :=
  match resolveHtmlRange anchor doc with
  | None => None
  | Some range => nonEmptyOrNull (getClientRects range)
  end.

(** [resolveAnchorToRects(anchor, doc, pdfContext)] *)
Definition resolveAnchorToRects (anchor : Anchor) (doc : Node)
    (pdfContext : option (string * option TextLayer))
  : option (list BoundingRect) :=
  match anchor with
  | AnchorHtml h => resolveHtmlAnchor h doc
  | AnchorPdf p =>
      match pdfContext with
      | None => None
      | Some (pageTextContent, textLayerElement) =>
          resolvePdfAnchor p pageTextContent textLayerElement
      end
  end.

End Resolution.

(* ------------------------------------------------------------------ *)
(** *** An XPath engine for the paths [getXPath] writes *)
(* ------------------------------------------------------------------ *)

Fixpoint splitOn (sep : ascii) (s : string) : list string :=
  match s with
  | EmptyString => [""]
  | String c rest =>
      if Ascii.eqb c sep then "" :: splitOn sep rest
      else match splitOn sep rest with
           | [] => [String c ""]
           | h :: t => String c h :: t
           end
  end.

(** Reads one step [name[k]]. *)
Definition parseStep (s : string) : option (string * nat) :=
  let i := indexOf s "[" in
  if i =? -1 then None
  else
    let name := slice s 0 i in
    let rest := sliceFrom s (i + 1) in
    let n := strlen rest in
    if negb (String.eqb (sliceFrom rest (n - 1)) "]") then None
    else match NilEmpty.uint_of_string (slice rest 0 (n - 1)) with
         | Some u => Some (name, Nat.of_uint u)
         | None => None
         end.

(** The [k]-th (from 1) child element whose name is [name]. *)
Definition childElement (kids : list Node) (name : string) (k : nat) : option Node :=
  match k with
  | O => None
  | S k' =>
      nth_error
        (filter (fun c =>
                   match c with
                   | ElementNode t _ => String.eqb (toLowerCase t) name
                   | TextNode _ => false
                   end)
                kids)
        k'
  end.

Fixpoint walkSteps (steps : list string) (n : Node) : option Node :=
  match steps with
  | [] => Some n
  | step :: rest =>
      match parseStep step, n with
      | Some (name, k), ElementNode _ kids =>
          match childElement kids name k with
          | Some c => walkSteps rest c
          | None => None
          end
      | _, _ => None
      end
  end.

(** [document.evaluate] on absolute location paths [/a[i]/b[j]/...], the
    only expressions [getXPath] produces; [doc] is the document element.
    Any other expression gives [None]. *)
Definition evaluateLocationPath (xpath : string) (doc : Node) : option Node :=
  match splitOn "/" xpath with
  | "" :: steps => walkSteps steps (ElementNode "#document" [doc])
  | _ => None
  end.

(* ================================================================== *)
(** ** The annotation store (localStorage) *)
(* ================================================================== *)

(** The five JSON arrays kept under [coreader_documents],
    [coreader_highlights], [coreader_notes], [coreader_vocabulary] and
    [coreader_ai_outputs]. *)
Record Store := mkStore {
  documents : list Document;
  highlights : list Highlight;
  notes : list Note;
  vocabulary : list VocabularyEntry;
  aiOutputs : list AIOutput
}.

Definition emptyStore : Store := mkStore [] [] [] [] [].

Definition saveDocuments (ds : list Document) (s : Store) : Store :=
  mkStore ds (highlights s) (notes s) (vocabulary s) (aiOutputs s).

Definition saveHighlights (hs : list Highlight) (s : Store) : Store :=
  mkStore (documents s) hs (notes s) (vocabulary s) (aiOutputs s).

Definition saveNotes (ns : list Note) (s : Store) : Store :=
  mkStore (documents s) (highlights s) ns (vocabulary s) (aiOutputs s).

Definition saveVocabulary (vs : list VocabularyEntry) (s : Store) : Store :=
  mkStore (documents s) (highlights s) (notes s) vs (aiOutputs s).

Definition saveAIOutputs (os : list AIOutput) (s : Store) : Store :=
  mkStore (documents s) (highlights s) (notes s) (vocabulary s) os.

(** [a !== b] on strings *)
Definition strNeq (a b : string) : bool := negb (String.eqb a b).

(** [arr.findIndex(p)], [-1] when no element satisfies [p]. *)
Fixpoint findIndex {A : Type} (p : A -> bool) (l : list A) : Z :=
  match l with
  | [] => -1
  | x :: rest =>
      if p x then 0
      else let i := findIndex p rest in
           if i =? -1 then -1 else i + 1
  end.

(** [arr[i] = v] for an index inside the array. *)
Fixpoint setNth {A : Type} (i : nat) (v : A) (l : list A) : list A :=
  match l, i with
  | [], _ => []
  | _ :: rest, O => v :: rest
  | x :: rest, S i' => x :: setNth i' v rest
  end.

(* ------------------------------------------------------------------ *)
(** *** lib/highlights.ts *)
(* ------------------------------------------------------------------ *)

Definition getAllHighlights (s : Store) : list Highlight := highlights s.

Definition getHighlightsByDocument (s : Store) (documentId : string) : list Highlight :=
  filter (fun h => String.eqb (hlDocumentId h) documentId) (getAllHighlights s).

Definition getHighlightById (s : Store) (id : string) : option Highlight :=
  find (fun h => String.eqb (hlId h) id) (getAllHighlights s).

(** [createHighlight]; [uuid] and [now] are what [uuidv4()] and [new Date()]
    return in this call. *)
Definition createHighlight (uuid : string) (now : Z) (documentId : string)
    (type : HighlightType) (text : string) (anchor : Anchor) (s : Store)
  : Store * Highlight :=
  let highlight := mkHighlight uuid documentId type text anchor now in
  (saveHighlights (getAllHighlights s ++ [highlight]) s, highlight).

Definition getAllNotes (s : Store) : list Note := notes s.

Definition getNoteByHighlight (s : Store) (highlightId : string) : option Note :=
  find (fun n => String.eqb (noteHighlightId n) highlightId) (getAllNotes s).

(** [deleteNotesByHighlight(highlightId)] *)
Definition deleteNotesByHighlight (highlightId : string) (s : Store) : Store :=
  let notes := getAllNotes s in
  let filtered := filter (fun n => strNeq (noteHighlightId n) highlightId) notes in
  saveNotes filtered s.

(** [deleteHighlight(id)] *)
Definition deleteHighlight (id : string) (s : Store) : Store * bool :=
  let highlights := getAllHighlights s in
  let filtered := filter (fun h => strNeq (hlId h) id) highlights in
  if Nat.eqb (List.length filtered) (List.length highlights) then (s, false)
  else
    let s1 := saveHighlights filtered s in
    let s2 := deleteNotesByHighlight id s1 in
    (s2, true).

(** [deleteHighlightsByDocument(documentId)] *)
Definition deleteHighlightsByDocument (documentId : string) (s : Store) : Store :=
  let highlights := getAllHighlights s in
  let filtered := filter (fun h => strNeq (hlDocumentId h) documentId) highlights in
  saveHighlights filtered s.

(** [{ ...note, content }] *)
Definition withContent (n : Note) (content : string) : Note :=
  mkNote (noteId n) (noteHighlightId n) content (noteCreatedAt n).

(** [saveNote(highlightId, content)]; [uuid] and [now] are what [uuidv4()]
    and [new Date()] return if this call reaches them. *)
Definition saveNote (uuid : string) (now : Z) (highlightId content : string)
    (s : Store) : Store * Note :=
  let notes := getAllNotes s in
  let existingIndex :=
    findIndex (fun n => String.eqb (noteHighlightId n) highlightId) notes in
  let fresh := mkNote uuid highlightId content now in
  if negb (existingIndex =? -1) then
    match nth_error notes (Z.to_nat existingIndex) with
    | Some existing =>
        let updated := withContent existing content in
        (saveNotes (setNth (Z.to_nat existingIndex) updated notes) s, updated)
    | None => (s, fresh) (* not reached: [findIndex] returns an index of [notes] *)
    end
  else
    (saveNotes (notes ++ [fresh]) s, fresh).

(* ------------------------------------------------------------------ *)
(** *** lib/ai.ts *)
(* ------------------------------------------------------------------ *)

Definition getAllAIOutputs (s : Store) : list AIOutput := aiOutputs s.

Definition getAIOutputsByHighlight (s : Store) (highlightId : string) : list AIOutput :=
  filter (fun o => String.eqb (aiHighlightId o) highlightId) (getAllAIOutputs s).

(** [saveAIOutput(highlightId, type, content)] *)
Definition saveAIOutput (uuid : string) (now : Z) (highlightId : string)
    (type : AIOutputType) (content : string) (s : Store) : Store * AIOutput :=
  let output := mkAIOutput uuid highlightId type content now in
  (saveAIOutputs (getAllAIOutputs s ++ [output]) s, output).

(** [deleteAIOutputsByHighlight(highlightId)] *)
Definition deleteAIOutputsByHighlight (highlightId : string) (s : Store) : Store :=
  let outputs := getAllAIOutputs s in
  let filtered := filter (fun o => strNeq (aiHighlightId o) highlightId) outputs in
  saveAIOutputs filtered s.

(* ------------------------------------------------------------------ *)
(** *** lib/vocabulary.ts *)
(* ------------------------------------------------------------------ *)

Definition getAllVocabulary (s : Store) : list VocabularyEntry := vocabulary s.

Definition getVocabularyByDocument (s : Store) (documentId : string)
  : list VocabularyEntry :=
  filter (fun v => String.eqb (vocDocumentId v) documentId) (getAllVocabulary s).

(** [deleteVocabularyByDocument(documentId)], with the number of entries
    deleted. *)
Definition deleteVocabularyByDocument (documentId : string) (s : Store) : Store * Z :=
  let entries := getAllVocabulary s in
  let filtered := filter (fun e => strNeq (vocDocumentId e) documentId) entries in
  let deleted := Z.of_nat (List.length entries) - Z.of_nat (List.length filtered) in
  if deleted >? 0 then (saveVocabulary filtered s, deleted) else (s, deleted).

(* ------------------------------------------------------------------ *)
(** *** lib/documents.ts *)
(* ------------------------------------------------------------------ *)

Definition getAllDocuments (s : Store) : list Document := documents s.

Definition getDocumentById (s : Store) (id : string) : option Document :=
  find (fun d => String.eqb (docId d) id) (getAllDocuments s).

(** [createDocument(title, sourceType, sourcePath)] *)
Definition createDocument (uuid : string) (now : Z) (title : string)
    (sourceType : SourceType) (sourcePath : string) (s : Store) : Store * Document :=
  let document := mkDocument uuid title sourceType sourcePath now in
  (saveDocuments (getAllDocuments s ++ [document]) s, document).

(** [deleteDocument(id)] *)
Definition deleteDocument (id : string) (s : Store) : Store * bool :=
  let documents := getAllDocuments s in
  let filtered := filter (fun d => strNeq (docId d) id) documents in
  if Nat.eqb (List.length filtered) (List.length documents) then (s, false)
  else
    let s1 := saveDocuments filtered s in
    let s2 := deleteHighlightsByDocument id s1 in
    (s2, true).

(* ------------------------------------------------------------------ *)
(** *** app/page.tsx *)
(* ------------------------------------------------------------------ *)

(** The annotation-store calls of the home page's [handleDeleteDocument],
    in their order.  (The handler also clears the PDF or article storage of
    the document, which is no part of [Store].) *)
Definition handleDeleteDocument (id : string) (s : Store) : Store :=
  let s1 := fst (deleteDocument id s) in
  let s2 := deleteHighlightsByDocument id s1 in
  fst (deleteVocabularyByDocument id s2).

(* ------------------------------------------------------------------ *)
(** *** Store invariants and observations used in the statements *)
(* ------------------------------------------------------------------ *)

(** The notes attached to a highlight. *)
Definition notesOf (s : Store) (highlightId : string) : list Note :=
  filter (fun n => String.eqb (noteHighlightId n) highlightId) (notes s).

(** A highlight with this identifier is stored. *)
Definition hasHighlight (s : Store) (id : string) : bool :=
  existsb (fun h => String.eqb (hlId h) id) (highlights s).

(** A document with this identifier is stored. *)
Definition hasDocument (s : Store) (id : string) : bool :=
  existsb (fun d => String.eqb (docId d) id) (documents s).

(** A note is orphaned when no stored highlight carries its [highlightId]. *)
Definition orphaned (s : Store) (n : Note) : bool :=
  negb (hasHighlight s (noteHighlightId n)).

(* ------------------------------------------------------------------ *)
(** *** Text units with their running offsets *)
(* ------------------------------------------------------------------ *)

(** A text unit: the half-open interval of running offsets it occupies and
    its rectangle. *)
Record TextUnit := mkTextUnit {
  unitStart : Z;
  unitEnd : Z;
  unitRect : BoundingRect
}.

(** Running offsets assigned to the spans in order, starting from [from]:
    each unit begins where the previous one ended. *)
Fixpoint textUnitsFrom (from : Z) (spans : TextLayer) : list TextUnit :=
  match spans with
  | [] => []
  | span :: rest =>
      let stop := from + strlen (spanTextContent span) in
      mkTextUnit from stop (spanBoundingClientRect span) :: textUnitsFrom stop rest
  end.

Definition textUnits (spans : TextLayer) : list TextUnit := textUnitsFrom 0 spans.

(** Half-open interval overlap of a unit with [[startOffset, endOffset)]. *)
Definition overlaps (startOffset endOffset : Z) (u : TextUnit) : bool :=
  (unitEnd u >? startOffset) && (unitStart u <? endOffset).

(* ================================================================== *)
(** ** app/reader/[id]/HtmlRenderer.tsx *)
(* ================================================================== *)

(** The text nodes below a node, in document order. *)
Fixpoint descendantTextNodes (n : Node) : list string :=
  match n with
  | TextNode d => [d]
  | ElementNode _ kids => flat_map descendantTextNodes kids
  end.

(** What [createTreeWalker(targetNode, SHOW_TEXT)] visits through
    [nextNode()]: the text nodes strictly below [targetNode]. *)
Definition walkerTextNodes (targetNode : Node) : list string :=
  match targetNode with
  | TextNode _ => []
  | ElementNode _ kids => flat_map descendantTextNodes kids
  end.

(** The [while (walker.nextNode())] loop of [resolveHtmlHighlight]: the
    text nodes are numbered in visiting order from [index]; the result is
    the start node with [startOffsetInNode] and the end node with
    [endOffsetInNode], or [None] when the loop ends without an end node. *)
Fixpoint highlightWalk (nodes : list string) (index : nat) (currentOffset : Z)
    (startNode : option (nat * Z)) (startOffset endOffset : Z)
  : option ((nat * Z) * (nat * Z)) :=
  match nodes with
  | [] => None
  | textNode :: rest =>
      let nodeLength := strlen textNode in
      let startNode' :=
        match startNode with
        | None =>
            if currentOffset + nodeLength >? startOffset
            then Some (index, startOffset - currentOffset)
            else None
        | Some _ => startNode
        end in
      match startNode' with
      | Some start =>
          if currentOffset + nodeLength >=? endOffset
          then Some (start, (index, endOffset - currentOffset))
          else highlightWalk rest (S index) (currentOffset + nodeLength)
                 startNode' startOffset endOffset
      | None =>
          highlightWalk rest (S index) (currentOffset + nodeLength)
            None startOffset endOffset
      end
  end.

(** The text between two boundary points given by text-node number and
    offset. *)
Definition walkedText (nodes : list string) (r : (nat * Z) * (nat * Z)) : string :=
  let '((i, a), (j, b)) := r in
  if Nat.eqb i j then slice (nth i nodes "") a b
  else if Nat.ltb i j then
    sliceFrom (nth i nodes "") a
    ++ concatStrings (firstn (j - i - 1) (skipn (S i) nodes))
    ++ slice (nth j nodes "") 0 b
  else "".

(** [resolveHtmlHighlight(container, anchor, expectedText)], up to the range
    handed to the layout engine: the text nodes visited and the two boundary
    points set on the range.  [None] is the empty result. *)
Definition resolveHtmlHighlight (evaluate : string -> Node -> option Node)
    (doc : Node) (anchor : HtmlAnchor)
  : option (list string * ((nat * Z) * (nat * Z))) :=
  match evaluate (htmlXpath anchor) doc with
  | None => None
  | Some targetNode =>
      let textContent := textContent targetNode in
      let contextCore := slice (htmlContext anchor) 10 (-10) in
      if negb (includes textContent contextCore) then None
      else
        let nodes := walkerTextNodes targetNode in
        match highlightWalk nodes 0 0 None
                (htmlStartOffset anchor) (htmlEndOffset anchor) with
        | None => None
        | Some ((i, startOffsetInNode), (j, endOffsetInNode)) =>
            let a := Z.min startOffsetInNode (strlen (nth i nodes "")) in
            let b := Z.min endOffsetInNode (strlen (nth j nodes "")) in
            if toUint32 a >? strlen (nth i nodes "") then None
            else if toUint32 b >? strlen (nth j nodes "") then None
            else Some (nodes, ((i, a), (j, b)))
        end
  end.

(* ================================================================== *)
(** ** Offsets relative to a container, and the scenarios *)
(* ================================================================== *)

(** The element an anchor built at [node] addresses: [getXPath] names the
    parent of a text node, and an element itself. *)
Definition addressedContainer (doc : Node) (node : NodePath) : NodePath :=
  match nodeAt doc node with
  | Some (TextNode _) => parentPath node
  | _ => node
  end.

(** The offset of a boundary point within the concatenated text of the
    text-node descendants of [container], in document order. *)
Definition containerTextOffset (doc : Node) (container point : NodePath)
    (offset : nat) : Z :=
  Z.of_nat (boundaryPosition doc point offset - charsBefore doc container).

(** [<article><p>The quick brown fox</p></article>] with ["brown"]
    selected. *)
Definition foxDoc : Node :=
  ElementNode "ARTICLE" [ElementNode "P" [TextNode "The quick brown fox"]].

Definition foxSelection : Range := mkRange [0; 0]%nat 10 [0; 0]%nat 15.

Definition foxAnchor : HtmlAnchor := createHtmlAnchor foxDoc foxSelection.

(** The same document after the paragraph text changed. *)
Definition foxChangedDoc : Node :=
  ElementNode "ARTICLE" [ElementNode "P" [TextNode "The slow brown fox"]].

(** The same document after the paragraph was replaced by unrelated text. *)
Definition foxReplacedDoc : Node :=
  ElementNode "ARTICLE" [ElementNode "P" [TextNode "zzzzzzzzzzzzzzzzzzzz"]].

(** [<p>Hello <b>brave</b> new world</p>] with ["new"] selected in the text
    node that follows the [<b>] element. *)
Definition inlineDoc : Node :=
  ElementNode "P"
    [TextNode "Hello "; ElementNode "B" [TextNode "brave"]; TextNode " new world"].

Definition inlineSelection : Range := mkRange [2]%nat 1 [2]%nat 4.

(** [<p>Hello world</p>] with its first four characters selected. *)
Definition helloDoc : Node := ElementNode "P" [TextNode "Hello world"].

Definition helloSelection : Range := mkRange [0]%nat 0 [0]%nat 4.

Definition sampleRect : BoundingRect := mkRect 0 0 100 12.

Definition sampleAnchor : Anchor := AnchorHtml foxAnchor.

(** A store with highlight [H1] (note [N1], AI output [A1]) and its sibling
    [H2] (note [N2]), both on document [D1], which also owns the vocabulary
    entry [V1]. *)
Definition cascadeStore : Store :=
  mkStore
    [mkDocument "D1" "Essay" url "https://example.org/essay" 1]
    [mkHighlight "H1" "D1" insight "brown" sampleAnchor 2;
     mkHighlight "H2" "D1" question "fox" sampleAnchor 3]
    [mkNote "N1" "H1" "first note" 4; mkNote "N2" "H2" "second note" 5]
    [mkVocabularyEntry "V1" "quick" "The quick brown fox" "D1" None None 6]
    [mkAIOutput "A1" "H1" clarify "plainer words" 7].

(* ================================================================== *)
(** ** lib/articles.ts *)
(* ================================================================== *)

Record StoredArticle := mkStoredArticle {
  artId : string;
  artUrl : string;
  artTitle : string;
  artContent : string;
  artAuthor : option string;
  artPublishedDate : option string;
  artFetchedAt : string
}.

(** [getArticleById(id)], over the array kept under [coreader_articles]. *)
Definition getArticleById (articles : list StoredArticle) (id : string)
  : option StoredArticle :=
  find (fun a => String.eqb (artId a) id) articles.

(** [storeArticle(article)].  [setItem] tells whether
    [localStorage.setItem] accepts the new array; when it throws, the
    function throws the error whose message is returned and the stored array
    stays as it was. *)
Definition storeArticle (setItem : list StoredArticle -> bool)
    (article : StoredArticle) (articles : list StoredArticle)
  : list StoredArticle * option string :=
  let filtered := filter (fun a => strNeq (artId a) (artId article)) articles in
  let filtered := (filtered ++ [article])%list in
  if setItem filtered then (filtered, None)
  else (articles, Some "Storage full. Please remove some documents.").

(** [deleteArticle(id)] *)
Definition deleteArticle (id : string) (articles : list StoredArticle)
  : list StoredArticle :=
  filter (fun a => strNeq (artId a) id) articles.

(* ================================================================== *)
(** ** More of lib/highlights.ts, lib/documents.ts, lib/ai.ts and
       lib/vocabulary.ts *)
(* ================================================================== *)

(** [{ ...highlight, type }] *)
Definition withType (h : Highlight) (type : HighlightType) : Highlight :=
  mkHighlight (hlId h) (hlDocumentId h) type (hlText h) (hlAnchor h) (hlCreatedAt h).

(** [updateHighlightType(id, type)] *)
Definition updateHighlightType (id : string) (type : HighlightType) (s : Store)
  : Store * option Highlight :=
  let highlights := getAllHighlights s in
  let index := findIndex (fun h => String.eqb (hlId h) id) highlights in
  if index =? -1 then (s, None)
  else
    match nth_error highlights (Z.to_nat index) with
    | Some existing =>
        let updated := withType existing type in
        (saveHighlights (setNth (Z.to_nat index) updated highlights) s, Some updated)
    | None => (s, None) (* not reached: [findIndex] returns an index of [highlights] *)
    end.

(** [deleteNote(id)] *)
Definition deleteNote (id : string) (s : Store) : Store * bool :=
  let notes := getAllNotes s in
  let filtered := filter (fun n => strNeq (noteId n) id) notes in
  if Nat.eqb (List.length filtered) (List.length notes) then (s, false)
  else (saveNotes filtered s, true).

(** [h.type === t] *)
Definition highlightTypeEqb (a b : HighlightType) : bool :=
  match a, b with
  | insight, insight | definition, definition | question, question => true
  | _, _ => false
  end.

Record HighlightStats := mkHighlightStats {
  statsTotal : Z;
  statsInsight : Z;
  statsDefinition : Z;
  statsQuestion : Z
}.

(** [getHighlightStats(documentId?)]: an absent or empty [documentId] counts
    all highlights. *)
Definition getHighlightStats (s : Store) (documentId : option string) : HighlightStats :=
  let highlights :=
    match documentId with
    | Some d => if String.eqb d "" then getAllHighlights s
                else getHighlightsByDocument s d
    | None => getAllHighlights s
    end in
  let count t :=
    Z.of_nat (List.length (filter (fun h => highlightTypeEqb (hlType h) t) highlights)) in
  mkHighlightStats (Z.of_nat (List.length highlights))
    (count insight) (count definition) (count question).

(** [{ ...document, title }] *)
Definition withTitle (d : Document) (title : string) : Document :=
  mkDocument (docId d) title (docSourceType d) (docSourcePath d) (docCreatedAt d).

(** [updateDocumentTitle(id, title)] *)
Definition updateDocumentTitle (id title : string) (s : Store)
  : Store * option Document :=
  let documents := getAllDocuments s in
  let index := findIndex (fun d => String.eqb (docId d) id) documents in
  if index =? -1 then (s, None)
  else
    match nth_error documents (Z.to_nat index) with
    | Some existing =>
        let updated := withTitle existing title in
        (saveDocuments (setNth (Z.to_nat index) updated documents) s, Some updated)
    | None => (s, None) (* not reached *)
    end.


Definition getVocabularyById (s : Store) (id : string) : option VocabularyEntry :=
  find (fun v => String.eqb (vocId v) id) (getAllVocabulary s).


(** Truthiness of an optional string field: present and not empty. *)
Definition truthy (o : option string) : bool :=
  match o with
  | Some v => negb (String.eqb v "")
  | None => false
  end.

Record VocabularyStats := mkVocabularyStats {
  vocTotal : Z;
  vocWithDefinitions : Z;
  vocWithNotes : Z;
  vocDocumentsCount : Z
}.

(** [getVocabularyStats()]; [new Set(...).size] counts the distinct document
    ids. *)
Definition getVocabularyStats (s : Store) : VocabularyStats :=
  let entries := getAllVocabulary s in
  let documentIds := nodup string_dec (map vocDocumentId entries) in
  mkVocabularyStats
    (Z.of_nat (List.length entries))
    (Z.of_nat (List.length (filter (fun e => truthy (vocDefinition e)) entries)))
    (Z.of_nat (List.length (filter (fun e => truthy (vocUserNote e)) entries)))
    (Z.of_nat (List.length documentIds)).

(** The double quote and the line feed. *)
Definition dquote : ascii := ascii_of_nat 34.
Definition linefeed : ascii := ascii_of_nat 10.

(** The [replace] call of [escapeCsv]: every double quote is written
    twice. *)
Fixpoint doubleQuotes (value : string) : string :=
  match value with
  | EmptyString => EmptyString
  | String c rest =>
      if Ascii.eqb c dquote then String dquote (String dquote (doubleQuotes rest))
      else String c (doubleQuotes rest)
  end.

(** [escapeCsv(value)] *)
Definition escapeCsv (value : string) : string :=
  if includes value "," || includes value (String dquote "")
     || includes value (String linefeed "")
  then String dquote (doubleQuotes value ++ String dquote "")
  else value.

(* ================================================================== *)
(** ** app/reader/[id]/PdfRenderer.tsx and the PDF branch of
       app/reader/[id]/ReaderPane.tsx *)
(* ================================================================== *)

Record TextSpan := mkTextSpan {
  tsText : string;
  tsLeft : Z;
  tsTop : Z;
  tsWidth : Z;
  tsHeight : Z;
  tsFontSize : Z
}.


(** The rectangle pushed for a span: [width: span.width || 100]. *)
Definition spanRect (span : TextSpan) : BoundingRect :=
  mkRect (tsTop span) (tsLeft span)
    (if tsWidth span =? 0 then 100 else tsWidth span) (tsHeight span).

(** The span loop of [findHighlightRects]; the offset advances by the span's
    length plus one for the space. *)
Fixpoint highlightSpanRects (textSpans : list TextSpan)
    (currentOffset startOffset endOffset : Z) : list BoundingRect :=
  match textSpans with
  | [] => []
  | span :: rest =>
      let spanStart := currentOffset in
      let spanEnd := currentOffset + strlen (tsText span) in
      (if (spanEnd >? startOffset) && (spanStart <? endOffset)
       then [spanRect span]
       else [])
      ++ highlightSpanRects rest (spanEnd + 1) startOffset endOffset
  end.

(** [findHighlightRects(context, startOffset, endOffset, textSpans, pageText)] *)
Definition findHighlightRects (context : string) (startOffset endOffset : Z)
    (textSpans : list TextSpan) (pageText : string) : list BoundingRect :=
  let contextCore := slice context 10 (-10) in
  let contextIndex := indexOf pageText contextCore in
  if contextIndex =? -1 then []
  else highlightSpanRects textSpans 0 startOffset endOffset.



(** Total number of code units of the spans of a text layer. *)
Definition layerLength (spans : TextLayer) : Z :=
  strlen (concatStrings (map spanTextContent spans)).

(* ================================================================== *)
(** ** Tag names as an HTML document reports them *)
(* ================================================================== *)




(* ################################################################## *)
(** * Properties *)
(* ################################################################## *)

(* ================================================================== *)
(** ** Facts about the string primitives *)
(* ================================================================== *)

Section StringFacts.

Lemma append_nil_r (s : string) : s ++ "" = s.
Proof. induction s as [|c s IH]; simpl; [reflexivity | now rewrite IH]. Qed.

Lemma append_assoc (a b c : string) : (a ++ b) ++ c = a ++ (b ++ c).
Proof. induction a as [|x a IH]; simpl; [reflexivity | now rewrite IH]. Qed.

Lemma length_append (a b : string) :
  String.length (a ++ b) = (String.length a + String.length b)%nat.
Proof. induction a as [|x a IH]; simpl; [reflexivity | now rewrite IH]. Qed.

Lemma prefix_iff (a b : string) :
  String.prefix a b = true <-> exists post, b = a ++ post.
Proof.
  revert b; induction a as [|x a IH]; intros b.
  - destruct b; simpl; split; intros _; eauto.
  - destruct b as [|y b]; simpl.
    + split; [discriminate | intros [post H]; discriminate].
    + destruct (ascii_dec x y) as [->|Hxy].
      * rewrite IH. split; intros [post H].
        -- exists post. now rewrite H.
        -- exists post. now inversion H.
      * split; [discriminate | intros [post H]; inversion H; congruence].
Qed.

Lemma includes_iff (hay needle : string) :
  includes hay needle = true <-> exists pre post, hay = pre ++ needle ++ post.
Proof.
  induction hay as [|c hay IH]; cbn [includes].
  - rewrite orb_false_r, prefix_iff. split.
    + intros [post H]. exists "", post. exact H.
    + intros [pre [post H]]. destruct pre; [eauto | discriminate].
  - rewrite orb_true_iff, prefix_iff, IH. split.
    + intros [[post H] | [pre [post H]]].
      * exists "", post. exact H.
      * exists (String c pre), post. simpl. now rewrite H.
    + intros [pre [post H]]. destruct pre as [|x pre]; simpl in H.
      * left. eauto.
      * right. inversion H. eauto.
Qed.

Lemma includes_empty (hay : string) : includes hay "" = true.
Proof. apply includes_iff. exists "", hay. reflexivity. Qed.

Lemma includes_refl (s : string) : includes s s = true.
Proof. apply includes_iff. exists "", "". simpl. now rewrite append_nil_r. Qed.

Lemma includes_trans (a b c : string) :
  includes a b = true -> includes b c = true -> includes a c = true.
Proof.
  rewrite !includes_iff. intros [p1 [q1 ->]] [p2 [q2 ->]].
  exists (p1 ++ p2), (q2 ++ q1). now rewrite !append_assoc.
Qed.

Lemma includes_app_l (a b n : string) :
  includes a n = true -> includes (a ++ b) n = true.
Proof.
  rewrite !includes_iff. intros [p [q ->]].
  exists p, (q ++ b). now rewrite !append_assoc.
Qed.

Lemma includes_app_r (a b n : string) :
  includes b n = true -> includes (a ++ b) n = true.
Proof.
  rewrite !includes_iff. intros [p [q ->]].
  exists (a ++ p), q. now rewrite !append_assoc.
Qed.

(** A text that lacks a string lacks everything that contains it. *)
Lemma includes_false_mono (text big small : string) :
  includes big small = true ->
  includes text small = false -> includes text big = false.
Proof.
  intros Hsub Hno. destruct (includes text big) eqn:E; [|reflexivity].
  rewrite (includes_trans _ _ _ E Hsub) in Hno. discriminate.
Qed.

Lemma take_drop (n : nat) (s : string) : take n s ++ drop n s = s.
Proof.
  revert s; induction n as [|n IH]; intros [|c s]; simpl; try reflexivity.
  now rewrite IH.
Qed.

Lemma take_length (n : nat) (s : string) :
  String.length (take n s) = Nat.min n (String.length s).
Proof.
  revert s; induction n as [|n IH]; intros [|c s]; simpl; try reflexivity.
  now rewrite IH.
Qed.

Lemma take_all (n : nat) (s : string) :
  (String.length s <= n)%nat -> take n s = s.
Proof.
  revert s; induction n as [|n IH]; intros [|c s]; simpl; intros H;
    try reflexivity; try lia.
  rewrite IH; [reflexivity | lia].
Qed.


Lemma drop_drop (a b : nat) (s : string) : drop a (drop b s) = drop (b + a) s.
Proof.
  revert s; induction b as [|b IH]; intros s; simpl; [reflexivity|].
  destruct s as [|c s]; [now destruct a | apply IH].
Qed.

Lemma take_drop_take (d m2 m1 : nat) (t : string) :
  (d + m2 <= m1)%nat -> take m2 (drop d (take m1 t)) = take m2 (drop d t).
Proof.
  revert d m2 m1; induction t as [|c t IH]; intros d m2 m1 H.
  - destruct m1, d, m2; reflexivity.
  - destruct m1 as [|m1].
    + assert (d = O /\ m2 = O) as [-> ->] by lia. reflexivity.
    + destruct d as [|d]; simpl.
      * destruct m2 as [|m2]; [reflexivity|]. simpl. f_equal.
        apply (IH O m2 m1). lia.
      * apply IH. lia.
Qed.

Lemma includes_take_drop (n m : nat) (s : string) :
  includes s (take m (drop n s)) = true.
Proof.
  apply includes_iff. exists (take n s), (drop m (drop n s)).
  now rewrite take_drop, take_drop.
Qed.

(** [s.slice(b, e)] is a substring of [s]. *)
Lemma includes_slice (s : string) (b e : Z) : includes s (slice s b e) = true.
Proof. unfold slice. apply includes_take_drop. Qed.

(** Trimming more off both ends leaves a substring of trimming less. *)
Lemma slice_trim_nested (s : string) (r1 r2 : Z) :
  0 < r1 <= r2 -> includes (slice s r1 (- r1)) (slice s r2 (- r2)) = true.
Proof.
  intros Hr. unfold slice, strlen.
  set (n := String.length s).
  destruct (Z.ltb_spec r1 0); [lia|]. destruct (Z.ltb_spec r2 0); [lia|].
  destruct (Z.ltb_spec (- r1) 0); [|lia]. destruct (Z.ltb_spec (- r2) 0); [|lia].
  destruct (Z_le_gt_dec (Z.of_nat n) (2 * r2)) as [Hshort | Hlong].
  - replace (Z.to_nat (Z.max (Z.max (Z.of_nat n + - r2) 0 - Z.min r2 (Z.of_nat n)) 0))
      with O by lia.
    apply includes_empty.
  - set (k1 := Z.to_nat r1). set (k2 := Z.to_nat r2).
    replace (Z.to_nat (Z.max (Z.max (Z.of_nat n + - r2) 0 - Z.min r2 (Z.of_nat n)) 0))
      with (n - 2 * k2)%nat by lia.
    replace (Z.to_nat (Z.max (Z.max (Z.of_nat n + - r1) 0 - Z.min r1 (Z.of_nat n)) 0))
      with (n - 2 * k1)%nat by lia.
    replace (Z.to_nat (Z.min r2 (Z.of_nat n))) with (k1 + (k2 - k1))%nat by lia.
    replace (Z.to_nat (Z.min r1 (Z.of_nat n))) with k1 by lia.
    rewrite <- drop_drop.
    rewrite <- (take_drop_take (k2 - k1) (n - 2 * k2) (n - 2 * k1)) by lia.
    apply includes_take_drop.
Qed.

(** A string of at most [2 * r] code units has nothing left once [r] are
    trimmed off each end. *)
Lemma slice_trim_short (s : string) (r : Z) :
  0 < r -> strlen s <= 2 * r -> slice s r (- r) = "".
Proof.
  intros Hr Hlen. unfold slice, strlen in *.
  destruct (Z.ltb_spec r 0); [lia|]. destruct (Z.ltb_spec (- r) 0); [|lia].
  replace (Z.to_nat (Z.max (Z.max (Z.of_nat (String.length s) + - r) 0
                            - Z.min r (Z.of_nat (String.length s))) 0))
    with O by lia.
  reflexivity.
Qed.

Lemma indexOf_prefix (hay needle : string) :
  String.prefix needle hay = true -> indexOf hay needle = 0.
Proof. intros H. destruct hay; simpl in *; now rewrite H. Qed.

Lemma indexOf_range (hay needle : string) :
  -1 <= indexOf hay needle <= strlen hay.
Proof.
  unfold strlen. induction hay as [|c hay IH].
  - simpl. destruct needle; simpl; lia.
  - cbn [indexOf]. destruct (String.prefix needle (String c hay)).
    + simpl String.length. lia.
    + destruct (Z.eqb_spec (indexOf hay needle) (-1)); simpl String.length; lia.
Qed.

(** [indexOf] and [includes] agree. *)
Lemma indexOf_includes (hay needle : string) :
  (indexOf hay needle =? -1) = negb (includes hay needle).
Proof.
  induction hay as [|c hay IH].
  - simpl. destruct needle; reflexivity.
  - cbn [indexOf includes]. destruct (String.prefix needle (String c hay)).
    + reflexivity.
    + simpl orb. pose proof (indexOf_range hay needle) as Hr.
      destruct (includes hay needle); simpl negb in *.
      * apply Z.eqb_neq in IH. rewrite (proj2 (Z.eqb_neq _ _) IH).
        apply Z.eqb_neq. lia.
      * rewrite IH. reflexivity.
Qed.

End StringFacts.

Lemma occursIn_app (c : ascii) (a b : string) :
  occursIn c (a ++ b) = occursIn c a || occursIn c b.
Proof.
  induction a as [|x a IH]; simpl; [reflexivity|].
  now rewrite IH, orb_assoc.
Qed.

Lemma includes_occursIn (s t : string) (c : ascii) :
  includes s (String c t) = true -> occursIn c s = true.
Proof.
  intros H. apply includes_iff in H. destruct H as [pre [post ->]].
  rewrite occursIn_app. simpl. rewrite Ascii.eqb_refl. simpl.
  apply orb_true_r.
Qed.

(* ================================================================== *)
(** ** Anchor resolution: the context check *)
(* ================================================================== *)

Section ContextCheck.

Variable evaluate : string -> Node -> option Node.
Variable getClientRects : TextRange -> list BoundingRect.

(** The text node [resolveHtmlAnchor] reads is part of the resolved node's
    text. *)
Lemma anchoredTextNode_includes (node : Node) (nodeText : string) :
  anchoredTextNode node = Some nodeText ->
  includes (textContent node) nodeText = true.
Proof.
  destruct node as [d | tag kids]; simpl.
  - intros H. inversion H. apply includes_refl.
  - destruct kids as [|[d | t k] rest]; simpl; try discriminate.
    intros H. inversion H. subst. apply includes_app_l, includes_refl.
Qed.

Lemma resolvePdfAnchor_mismatch (a : PdfAnchor) (pageText : string)
    (layer : option TextLayer) :
  includes pageText (slice (pdfContext a) 10 (-10)) = false ->
  resolvePdfAnchor a pageText layer = None.
Proof.
  intros H. unfold resolvePdfAnchor. destruct layer; [|reflexivity].
  now rewrite H.
Qed.

Lemma resolveHtmlRange_mismatch (a : HtmlAnchor) (doc : Node) :
  (forall node, evaluate (htmlXpath a) doc = Some node ->
                includes (textContent node) (slice (htmlContext a) 10 (-10)) = false) ->
  resolveHtmlRange evaluate a doc = None.
Proof.
  intros H. unfold resolveHtmlRange, resolveXPath.
  destruct (evaluate (htmlXpath a) doc) as [node|] eqn:E; [|reflexivity].
  destruct (anchoredTextNode node) as [nodeText|] eqn:T; [|reflexivity].
  specialize (H node eq_refl).
  apply anchoredTextNode_includes in T.
  destruct (includes nodeText (slice (htmlContext a) 10 (-10))) eqn:I; [|reflexivity].
  rewrite (includes_trans _ _ _ T I) in H. discriminate.
Qed.

End ContextCheck.

(** C1 (as amended).  Whatever the stored offsets, page number and path:
    when the current text of the page, or of the container the path
    resolves to, does not contain [context.slice(10, -10)], both
    [resolvePdfAnchor] and [resolveHtmlAnchor] return [null]. *)
Theorem resolution_fails_without_context_core
    (context text : string)
    (Hmismatch : includes text (slice context 10 (-10)) = false) :
  (forall pageNumber startOffset endOffset layer,
      resolvePdfAnchor (mkPdfAnchor pageNumber startOffset endOffset context)
        text layer = None)
  /\ (forall evaluate getClientRects xpath startOffset endOffset doc,
         (forall node, evaluate xpath doc = Some node -> textContent node = text) ->
         resolveHtmlAnchor evaluate getClientRects
           (mkHtmlAnchor xpath startOffset endOffset context) doc = None).
Proof.
  split.
  - intros. now apply resolvePdfAnchor_mismatch.
  - intros evaluate getClientRects xpath s e doc Htext.
    unfold resolveHtmlAnchor. rewrite resolveHtmlRange_mismatch; [reflexivity|].
    simpl. intros node E. now rewrite (Htext node E).
Qed.

(** The same holds a fortiori for the context trimmed by 30 characters on
    each end, which is a substring of the one trimmed by 10. *)
Lemma resolution_fails_without_trim30 (context text : string) :
  includes text (slice context 30 (-30)) = false ->
  forall pageNumber startOffset endOffset layer,
    resolvePdfAnchor (mkPdfAnchor pageNumber startOffset endOffset context)
      text layer = None.
Proof.
  intros H page s e layer. apply resolvePdfAnchor_mismatch. simpl.
  apply (includes_false_mono text _ (slice context 30 (-30))); [|exact H].
  apply slice_trim_nested. lia.
Qed.

Lemma resolution_fails_without_context_core_witness :
  includes "The slow red fox"
    (slice "He said that the quick brown fox was gone" 10 (-10)) = false
  /\ resolvePdfAnchor
       (mkPdfAnchor 1 21 26 "He said that the quick brown fox was gone")
       "The slow red fox" (Some [mkSpan "The slow red fox" sampleRect]) = None.
Proof.
  split; [reflexivity|].
  apply (proj1 (resolution_fails_without_context_core
                  "He said that the quick brown fox was gone"
                  "The slow red fox" eq_refl)).
Defined.

(** C1 (as stated) fails.  The anchor of the selection ["brown"] in
    ["The quick brown fox"] stores the context ["The quick brown fox"].
    The current text below contains neither the selected text nor any other
    non-empty part of that context, yet both resolvers return a rectangle:
    the core the code checks, [context.slice(10, -10)], is empty here. *)
Lemma context_mismatch_still_resolves :
  let text := "zzzzzzzzzzzzzzzzzzzz" in
  let pdfAnchor := mkPdfAnchor 1 10 15 (htmlContext foxAnchor) in
  rangeToString foxDoc foxSelection = "brown"
  /\ htmlContext foxAnchor = "The quick brown fox"
  /\ textContent foxReplacedDoc = text
  /\ (forall core, core <> "" ->
                   includes (htmlContext foxAnchor) core = true ->
                   includes text core = false)
  /\ resolvePdfAnchor pdfAnchor text (Some [mkSpan text sampleRect])
     = Some [sampleRect]
  /\ resolveHtmlAnchor evaluateLocationPath (fun _ => [sampleRect])
       foxAnchor foxReplacedDoc
     = Some [sampleRect].
Proof.
  cbv zeta. repeat split; try reflexivity.
  intros [|c t] Hne Hin; [congruence|].
  destruct (includes "zzzzzzzzzzzzzzzzzzzz" (String c t)) eqn:E; [|reflexivity].
  apply includes_occursIn in Hin, E.
  destruct (Ascii.eqb_spec "z"%char c) as [<-|Hc].
  - vm_compute in Hin. discriminate.
  - apply Ascii.eqb_neq in Hc. cbn [occursIn] in E. rewrite Hc in E. discriminate.
Qed.

(** C3.  A context of at most 20 characters has an empty core, which every
    text contains: the check never fails and both resolvers go on to the
    offset-based geometry, whatever the current text is. *)
Theorem short_context_never_fails_check
    (context : string) (Hshort : strlen context <= 20) :
  slice context 10 (-10) = ""
  /\ (forall text, includes text (slice context 10 (-10)) = true)
  /\ (forall pageNumber startOffset endOffset pageText spans,
         let anchor := mkPdfAnchor pageNumber startOffset endOffset context in
         resolvePdfAnchor anchor pageText (Some spans)
         = pdfOffsetGeometry anchor spans)
  /\ (forall evaluate getClientRects xpath startOffset endOffset doc node nodeText,
         let anchor := mkHtmlAnchor xpath startOffset endOffset context in
         evaluate xpath doc = Some node ->
         anchoredTextNode node = Some nodeText ->
         resolveHtmlAnchor evaluate getClientRects anchor doc
         = match htmlOffsetRange anchor nodeText with
           | Some range => nonEmptyOrNull (getClientRects range)
           | None => None
           end).
Proof.
  assert (Hcore : slice context 10 (-10) = "")
    by (apply (slice_trim_short context 10); lia).
  repeat split.
  - exact Hcore.
  - intros text. rewrite Hcore. apply includes_empty.
  - intros. unfold resolvePdfAnchor. simpl pdfContext.
    now rewrite Hcore, includes_empty.
  - intros evaluate getClientRects xpath s e doc node nodeText anchor E T.
    unfold resolveHtmlAnchor, resolveHtmlRange, resolveXPath. simpl htmlXpath.
    rewrite E, T. simpl htmlContext. now rewrite Hcore, includes_empty.
Qed.

Lemma short_context_never_fails_check_witness :
  strlen "The quick brown fox" <= 20
  /\ slice "The quick brown fox" 10 (-10) = ""
  /\ resolvePdfAnchor (mkPdfAnchor 1 10 15 "The quick brown fox")
       "An unrelated page" (Some [mkSpan "An unrelated page" sampleRect])
     = Some [sampleRect].
Proof.
  pose proof (short_context_never_fails_check "The quick brown fox") as H.
  assert (Hlen : strlen "The quick brown fox" <= 20) by (vm_compute; discriminate).
  destruct (H Hlen) as [Hcore [_ [Hpdf _]]].
  split; [exact Hlen|]. split; [exact Hcore|].
  rewrite Hpdf. reflexivity.
Defined.

(* ================================================================== *)
(** ** Anchor resolution: which text units are collected *)
(* ================================================================== *)

(** The span loop collects the rectangles of the overlapping units, in
    order. *)
Lemma pdfSpanRects_overlapping (spans : TextLayer) (from startOffset endOffset : Z) :
  pdfSpanRects spans from startOffset endOffset
  = map unitRect (filter (overlaps startOffset endOffset) (textUnitsFrom from spans)).
Proof.
  revert from; induction spans as [|span rest IH]; intros from; simpl.
  - reflexivity.
  - rewrite IH. unfold overlaps at 2. simpl.
    destruct ((from + strlen (spanTextContent span) >? startOffset)
              && (from <? endOffset)); reflexivity.
Qed.

(** Each unit starts where the previous one ended. *)
Lemma textUnitsFrom_contiguous (spans : TextLayer) (from : Z) (span : Span) :
  textUnitsFrom from (span :: spans)
  = mkTextUnit from (from + strlen (spanTextContent span))
      (spanBoundingClientRect span)
    :: textUnitsFrom (from + strlen (spanTextContent span)) spans.
Proof. reflexivity. Qed.

(** C9.  For a PDF anchor that passes the context check, the rectangles
    returned are those of exactly the units with
    [unit.end > startOffset && unit.start < endOffset], the units taking
    their running offsets in order; units [0,5) [5,15) [15,20) [20,25) and
    the range [3,17) give the first three rectangles and not the fourth. *)
Theorem pdf_resolution_collects_overlapping_units
    (context pageText : string)
    (Hverified : includes pageText (slice context 10 (-10)) = true) :
  (forall pageNumber startOffset endOffset spans,
      resolvePdfAnchor (mkPdfAnchor pageNumber startOffset endOffset context)
        pageText (Some spans)
      = nonEmptyOrNull
          (map unitRect (filter (overlaps startOffset endOffset) (textUnits spans))))
  /\ (forall pageNumber r1 r2 r3 r4,
         let spans := [mkSpan "Lorem" r1; mkSpan "ipsumdolor" r2;
                       mkSpan "sitam" r3; mkSpan "etcon" r4] in
         textUnits spans
         = [mkTextUnit 0 5 r1; mkTextUnit 5 15 r2;
            mkTextUnit 15 20 r3; mkTextUnit 20 25 r4]
         /\ resolvePdfAnchor (mkPdfAnchor pageNumber 3 17 context) pageText (Some spans)
            = Some [r1; r2; r3]).
Proof.
  assert (Hgen : forall pageNumber startOffset endOffset spans,
      resolvePdfAnchor (mkPdfAnchor pageNumber startOffset endOffset context)
        pageText (Some spans)
      = nonEmptyOrNull
          (map unitRect (filter (overlaps startOffset endOffset) (textUnits spans)))).
  { intros. unfold resolvePdfAnchor, pdfOffsetGeometry. simpl.
    rewrite Hverified. simpl. now rewrite pdfSpanRects_overlapping. }
  split; [exact Hgen|].
  intros pageNumber r1 r2 r3 r4 spans. split; [reflexivity|].
  rewrite Hgen. reflexivity.
Qed.

Lemma pdf_resolution_collects_overlapping_units_witness :
  includes "Lorem ipsumdolor sitam etcon" (slice "ipsumdolor" 10 (-10)) = true
  /\ resolvePdfAnchor (mkPdfAnchor 1 3 17 "ipsumdolor")
       "Lorem ipsumdolor sitam etcon"
       (Some [mkSpan "Lorem" (mkRect 0 0 50 12); mkSpan "ipsumdolor" (mkRect 0 50 100 12);
              mkSpan "sitam" (mkRect 0 150 50 12); mkSpan "etcon" (mkRect 0 200 50 12)])
     = Some [mkRect 0 0 50 12; mkRect 0 50 100 12; mkRect 0 150 50 12].
Proof.
  split; [reflexivity|].
  exact (proj2 (proj2 (pdf_resolution_collects_overlapping_units
                         "ipsumdolor" "Lorem ipsumdolor sitam etcon" eq_refl)
                  1 (mkRect 0 0 50 12) (mkRect 0 50 100 12)
                  (mkRect 0 150 50 12) (mkRect 0 200 50 12))).
Defined.

(* ================================================================== *)
(** ** The end-to-end scenario *)
(* ================================================================== *)

(** The anchor built for ["brown"] and its resolution against the unchanged
    document. *)
Lemma foxAnchor_built :
  foxAnchor = mkHtmlAnchor "/article[1]/p[1]" 10 15 "The quick brown fox"
  /\ resolveHtmlRange evaluateLocationPath foxAnchor foxDoc
     = Some (mkTextRange "The quick brown fox" 10 15)
  /\ textRangeToString (mkTextRange "The quick brown fox" 10 15) = "brown".
Proof. repeat split; vm_compute; reflexivity. Qed.

(** C2 (as amended).  After the paragraph changed to ["The slow brown fox"]
    the anchor still passes the check and the layout is asked for the
    stored range 10-15 of the current text; that range covers ["rown "],
    while ["brown"] now starts at 9. *)
Theorem changed_text_resolves_stored_offsets :
  (forall getClientRects,
      resolveHtmlAnchor evaluateLocationPath getClientRects foxAnchor foxChangedDoc
      = nonEmptyOrNull (getClientRects (mkTextRange "The slow brown fox" 10 15)))
  /\ resolveHtmlRange evaluateLocationPath foxAnchor foxChangedDoc
     = Some (mkTextRange "The slow brown fox" (htmlStartOffset foxAnchor)
               (htmlEndOffset foxAnchor))
  /\ textRangeToString (mkTextRange "The slow brown fox" 10 15) = "rown "
  /\ indexOf "The slow brown fox" "brown" = 9
  /\ textRangeToString (mkTextRange "The slow brown fox" 9 14) = "brown".
Proof. repeat split; vm_compute; reflexivity. Qed.

(** C2 (as stated) fails: the range resolved in the changed document does
    not cover ["brown"]. *)
Lemma changed_text_range_is_not_brown :
  ~ (exists range,
        resolveHtmlRange evaluateLocationPath foxAnchor foxChangedDoc = Some range
        /\ textRangeToString range = "brown").
Proof.
  intros [range [Hres Htext]].
  vm_compute in Hres. injection Hres as <-.
  vm_compute in Htext. discriminate.
Qed.

(* ================================================================== *)
(** ** Anchor creation: the stored offsets *)
(* ================================================================== *)

(** [createHtmlAnchor] stores the range's own offsets. *)
Lemma createHtmlAnchor_offsets (doc : Node) (range : Range) :
  htmlStartOffset (createHtmlAnchor doc range) = Z.of_nat (startOffset range)
  /\ htmlEndOffset (createHtmlAnchor doc range) = Z.of_nat (endOffset range).
Proof. split; reflexivity. Qed.

(** C4 fails on [<p>Hello <b>brave</b> new world</p>] with ["new"]
    selected.  The anchor addresses the [<p>] element and stores the offsets
    1 and 4 local to the third child; within the concatenated text of
    [<p>] the selection lies at 12-15, and 1-4 there is ["ell"], which is
    also what resolving the anchor against the same document covers. *)
Theorem createHtmlAnchor_stores_node_local_offsets :
  let anchor := createHtmlAnchor inlineDoc inlineSelection in
  let container := addressedContainer inlineDoc (startContainer inlineSelection) in
  rangeToString inlineDoc inlineSelection = "new"
  /\ htmlXpath anchor = "/p[1]"
  /\ getXPath inlineDoc container = htmlXpath anchor
  /\ (htmlStartOffset anchor, htmlEndOffset anchor) = (1, 4)
  /\ (containerTextOffset inlineDoc container
        (startContainer inlineSelection) (startOffset inlineSelection),
      containerTextOffset inlineDoc container
        (endContainer inlineSelection) (endOffset inlineSelection)) = (12, 15)
  /\ option_map textContent (nodeAt inlineDoc container) = Some "Hello brave new world"
  /\ slice "Hello brave new world" 12 15 = "new"
  /\ slice "Hello brave new world" 1 4 = "ell"
  /\ option_map textRangeToString
       (resolveHtmlRange evaluateLocationPath anchor inlineDoc) = Some "ell".
Proof. repeat split; vm_compute; reflexivity. Qed.

(** The renderer's own resolver, [resolveHtmlHighlight], reads the stored
    offsets as running offsets over the text nodes of the addressed
    element: on the same document it finds ["new"] for the offsets 12-15,
    and ["ell"] for the anchor [createHtmlAnchor] built. *)
Lemma renderer_reads_container_offsets :
  let covered anchor :=
    option_map (fun r => walkedText (fst r) (snd r))
      (resolveHtmlHighlight evaluateLocationPath inlineDoc anchor) in
  let built := createHtmlAnchor inlineDoc inlineSelection in
  covered (mkHtmlAnchor (htmlXpath built) 12 15 (htmlContext built)) = Some "new"
  /\ covered built = Some "ell".
Proof. split; vm_compute; reflexivity. Qed.

(* ================================================================== *)
(** ** Context extraction *)
(* ================================================================== *)

(** A selection of the first [n] code units of a container's only text node:
    no left padding, and [radius] code units of right padding as far as the
    content reaches. *)
Lemma extractContext_at_start (tag content : string) (n : nat) (radius : Z) :
  (n <= String.length content)%nat -> 0 <= radius ->
  extractContext (ElementNode tag [TextNode content])
    (mkRange [0%nat] 0 [0%nat] n) radius
  = take (n + Z.to_nat radius) content.
Proof.
  intros Hn Hr.
  unfold extractContext, commonAncestorContainer, rangeToString, boundaryPosition.
  simpl. rewrite append_nil_r, Nat.sub_0_r, Nat.min_l by exact Hn.
  rewrite indexOf_prefix.
  2:{ apply prefix_iff. exists (drop n content). symmetry. apply take_drop. }
  simpl (0 =? -1). cbv iota.
  unfold slice, strlen. rewrite take_length, Nat.min_l by exact Hn.
  set (len := String.length content) in *.
  destruct (Z.ltb_spec (Z.max 0 (0 - radius)) 0); [lia|].
  destruct (Z.ltb_spec (Z.min (Z.of_nat len) (0 + Z.of_nat n + radius)) 0); [lia|].
  replace (Z.to_nat (Z.min (Z.max 0 (0 - radius)) (Z.of_nat len))) with O by lia.
  simpl drop.
  destruct (Nat.le_gt_cases len (n + Z.to_nat radius)) as [Hall | Hpart].
  - rewrite !take_all; [reflexivity | exact Hall | fold len; lia].
  - f_equal. lia.
Qed.

(** C10 (as amended).  For the first four characters of ["Hello world"] the
    context is the whole content ["Hello world"]: nothing on the left, and
    the seven characters that remain on the right, fewer than the radius. *)
Theorem extractContext_at_container_start :
  rangeToString helloDoc helloSelection = "Hell"
  /\ indexOf "Hello world" "Hell" = 0
  /\ extractContext helloDoc helloSelection 30 = "Hello world"
  /\ extractContext helloDoc helloSelection 30 = take (4 + 30) "Hello world".
Proof.
  repeat split; try (vm_compute; reflexivity).
Qed.

(** C10 (as stated) fails: the context is not ["Hello"]. *)
Lemma extractContext_hello_is_not_hello :
  extractContext helloDoc helloSelection 30 <> "Hello".
Proof. vm_compute. discriminate. Qed.

(* ================================================================== *)
(** ** The annotation store *)
(* ================================================================== *)

Section ListFacts.

Context {A : Type}.

Lemma filter_all_kept (p : A -> bool) (l : list A) :
  Nat.eqb (List.length (filter p l)) (List.length l) = forallb p l.
Proof.
  induction l as [|x l IH]; simpl; [reflexivity|].
  destruct (p x); simpl; [exact IH|].
  apply Nat.eqb_neq. pose proof (filter_length_le p l). lia.
Qed.

Lemma existsb_forallb (p : A -> bool) (l : list A) :
  existsb p l = negb (forallb (fun x => negb (p x)) l).
Proof.
  induction l as [|x l IH]; simpl; [reflexivity|].
  rewrite IH. now destruct (p x).
Qed.

Lemma filter_filter_none (p q : A -> bool) (l : list A) :
  (forall x, q x = true -> p x = false) -> filter p (filter q l) = [].
Proof.
  intros H. induction l as [|x l IH]; simpl; [reflexivity|].
  destruct (q x) eqn:Q; [|exact IH]. simpl. now rewrite (H x Q).
Qed.

Lemma filter_filter_none_in (p q : A -> bool) (l : list A) :
  (forall x, In x l -> q x = true -> p x = false) -> filter p (filter q l) = [].
Proof.
  intros H. induction l as [|x l IH]; simpl; [reflexivity|].
  assert (IH' : filter p (filter q l) = [])
    by (apply IH; intros y Hy; apply H; now right).
  destruct (q x) eqn:Q; [|exact IH']. simpl.
  now rewrite (H x (or_introl eq_refl) Q).
Qed.

Lemma filter_filter_kept (p q : A -> bool) (l : list A) :
  (forall x, p x = true -> q x = true) -> filter p (filter q l) = filter p l.
Proof.
  intros H. induction l as [|x l IH]; simpl; [reflexivity|].
  destruct (q x) eqn:Q; simpl.
  - now rewrite IH.
  - destruct (p x) eqn:P; [|exact IH]. rewrite (H x P) in Q. discriminate.
Qed.

(** What [findIndex] finds, and what replacing the element found does to
    the elements satisfying the predicate. *)
Lemma findIndex_cases (p : A -> bool) (l : list A) :
  (findIndex p l = -1 /\ filter p l = [])
  \/ (exists i x rest,
         findIndex p l = Z.of_nat i
         /\ nth_error l i = Some x
         /\ p x = true
         /\ filter p l = x :: rest
         /\ forall y, p y = true -> filter p (setNth i y l) = y :: rest).
Proof.
  induction l as [|x l IH]; simpl.
  - left. split; reflexivity.
  - destruct (p x) eqn:P.
    + right. exists O, x, (filter p l). repeat split; try assumption.
      intros y Py. simpl. now rewrite Py.
    + destruct IH as [[Hi Hf] | [i [x' [rest [Hi [Hn [Px [Hf Hset]]]]]]]].
      * left. rewrite Hi. split; [reflexivity | exact Hf].
      * right. exists (S i), x', rest. rewrite Hi.
        destruct (Z.eqb_spec (Z.of_nat i) (-1)); [lia|].
        repeat split; try assumption; [lia|].
        intros y Py. simpl. rewrite P. now apply Hset.
Qed.

End ListFacts.

Lemma strNeq_eqb (a b : string) : strNeq a b = negb (String.eqb a b).
Proof. reflexivity. Qed.

(** [deleteHighlight] reports whether the highlight was stored. *)
Lemma deleteHighlight_found (id : string) (s : Store) :
  snd (deleteHighlight id s) = hasHighlight s id.
Proof.
  unfold deleteHighlight, hasHighlight, getAllHighlights.
  rewrite filter_all_kept, existsb_forallb.
  unfold strNeq. now destruct (forallb _ (highlights s)).
Qed.

(** What [deleteHighlight] does when the highlight is stored: the highlight
    and its notes go, everything else stays. *)
Lemma deleteHighlight_effect (id : string) (s : Store) :
  hasHighlight s id = true ->
  fst (deleteHighlight id s)
  = mkStore (documents s)
      (filter (fun h => strNeq (hlId h) id) (highlights s))
      (filter (fun n => strNeq (noteHighlightId n) id) (notes s))
      (vocabulary s)
      (aiOutputs s).
Proof.
  intros H. pose proof (deleteHighlight_found id s) as F. rewrite H in F.
  unfold deleteHighlight in *.
  destruct (Nat.eqb _ _); [discriminate | reflexivity].
Qed.

(** [deleteHighlight] never touches the AI outputs. *)
Lemma deleteHighlight_aiOutputs (id : string) (s : Store) :
  aiOutputs (fst (deleteHighlight id s)) = aiOutputs s.
Proof. unfold deleteHighlight. destruct (Nat.eqb _ _); reflexivity. Qed.

(** The part of the cascade that [deleteHighlight] performs. *)
Lemma deleteHighlight_cascades_notes (id : string) (s : Store) :
  hasHighlight s id = true ->
  let s' := fst (deleteHighlight id s) in
  hasHighlight s' id = false
  /\ notesOf s' id = []
  /\ (forall other, other <> id ->
        notesOf s' other = notesOf s other
        /\ filter (fun h => String.eqb (hlId h) other) (highlights s')
           = filter (fun h => String.eqb (hlId h) other) (highlights s)).
Proof.
  intros H s'. unfold s'. rewrite (deleteHighlight_effect id s H).
  unfold hasHighlight, notesOf. simpl.
  repeat split.
  - rewrite existsb_forallb. apply negb_false_iff, forallb_forall.
    intros h Hin. apply filter_In in Hin. exact (proj2 Hin).
  - apply filter_filter_none. intros n Hn. unfold strNeq in Hn.
    now apply negb_true_iff in Hn.
  - apply filter_filter_kept. intros n Hn. apply String.eqb_eq in Hn.
    unfold strNeq. apply negb_true_iff, String.eqb_neq. congruence.
  - apply filter_filter_kept. intros h Hh. apply String.eqb_eq in Hh.
    unfold strNeq. apply negb_true_iff, String.eqb_neq. congruence.
Qed.

(** C5 fails on the AI outputs.  Deleting [H1] from the store removes [H1]
    and its note [N1], leaves [H2] and [N2], and returns [true]; the AI
    output [A1] of [H1] is still stored. *)
Theorem deleteHighlight_keeps_ai_outputs :
  deleteHighlight "H1" cascadeStore
  = (mkStore (documents cascadeStore)
       [mkHighlight "H2" "D1" question "fox" sampleAnchor 3]
       [mkNote "N2" "H2" "second note" 5]
       (vocabulary cascadeStore)
       [mkAIOutput "A1" "H1" clarify "plainer words" 7],
     true)
  /\ getAIOutputsByHighlight (fst (deleteHighlight "H1" cascadeStore)) "H1"
     = [mkAIOutput "A1" "H1" clarify "plainer words" 7]
  /\ getAIOutputsByHighlight
       (deleteAIOutputsByHighlight "H1" (fst (deleteHighlight "H1" cascadeStore))) "H1"
     = [].
Proof. repeat split; vm_compute; reflexivity. Qed.

(** [deleteDocument] reports whether the document was stored. *)
Lemma deleteDocument_found (id : string) (s : Store) :
  snd (deleteDocument id s) = hasDocument s id.
Proof.
  unfold deleteDocument, hasDocument, getAllDocuments.
  rewrite filter_all_kept, existsb_forallb.
  unfold strNeq. now destruct (forallb _ (documents s)).
Qed.

(** What [deleteDocument] does when the document is stored. *)
Lemma deleteDocument_effect (id : string) (s : Store) :
  hasDocument s id = true ->
  fst (deleteDocument id s)
  = mkStore
      (filter (fun d => strNeq (docId d) id) (documents s))
      (filter (fun h => strNeq (hlDocumentId h) id) (highlights s))
      (notes s)
      (vocabulary s)
      (aiOutputs s).
Proof.
  intros H. pose proof (deleteDocument_found id s) as F. rewrite H in F.
  unfold deleteDocument in *.
  destruct (Nat.eqb _ _); [discriminate | reflexivity].
Qed.

(** [deleteDocument] never touches the notes or the AI outputs. *)
Lemma deleteDocument_notes (id : string) (s : Store) :
  notes (fst (deleteDocument id s)) = notes s
  /\ aiOutputs (fst (deleteDocument id s)) = aiOutputs s.
Proof. unfold deleteDocument. destruct (Nat.eqb _ _); split; reflexivity. Qed.

(** C6 fails on the notes.  Deleting [D1] removes the document and its
    highlights [H1] and [H2], but the notes [N1] and [N2] and the AI output
    [A1] stay behind, orphaned. *)
Theorem deleteDocument_orphans_notes :
  deleteDocument "D1" cascadeStore
  = (mkStore [] []
       [mkNote "N1" "H1" "first note" 4; mkNote "N2" "H2" "second note" 5]
       (vocabulary cascadeStore)
       [mkAIOutput "A1" "H1" clarify "plainer words" 7],
     true)
  /\ forallb (orphaned (fst (deleteDocument "D1" cascadeStore)))
       (notes (fst (deleteDocument "D1" cascadeStore))) = true
  /\ forallb (orphaned cascadeStore) (notes cascadeStore) = false.
Proof. repeat split; vm_compute; reflexivity. Qed.

(** C7.  Deleting a stored document leaves every vocabulary entry in place,
    those of the document included, and removes all of the document's
    highlights (and no other highlight). *)
Theorem deleteDocument_keeps_vocabulary
    (s : Store) (D1 : string) (Hstored : hasDocument s D1 = true) :
  let s' := fst (deleteDocument D1 s) in
  snd (deleteDocument D1 s) = true
  /\ vocabulary s' = vocabulary s
  /\ getVocabularyByDocument s' D1 = getVocabularyByDocument s D1
  /\ getHighlightsByDocument s' D1 = []
  /\ hasDocument s' D1 = false
  /\ (forall other, other <> D1 ->
        getHighlightsByDocument s' other = getHighlightsByDocument s other).
Proof.
  intros s'. unfold s'.
  rewrite deleteDocument_found, (deleteDocument_effect D1 s Hstored).
  unfold getVocabularyByDocument, getHighlightsByDocument, hasDocument,
    getAllVocabulary, getAllHighlights. simpl.
  repeat split; try assumption.
  - apply filter_filter_none. intros h Hh. unfold strNeq in Hh.
    now apply negb_true_iff in Hh.
  - rewrite existsb_forallb. apply negb_false_iff, forallb_forall.
    intros d Hin. apply filter_In in Hin. exact (proj2 Hin).
  - intros other Hother. apply filter_filter_kept. intros h Hh.
    apply String.eqb_eq in Hh. unfold strNeq.
    apply negb_true_iff, String.eqb_neq. congruence.
Qed.

(** The home page's delete handler, unlike [deleteDocument], goes on to
    delete the document's vocabulary. *)
Lemma handleDeleteDocument_deletes_vocabulary (id : string) (s : Store) :
  getVocabularyByDocument (handleDeleteDocument id s) id = [].
Proof.
  unfold handleDeleteDocument, deleteVocabularyByDocument, getVocabularyByDocument,
    getAllVocabulary.
  set (s2 := deleteHighlightsByDocument id (fst (deleteDocument id s))).
  set (keep := fun e : VocabularyEntry => strNeq (vocDocumentId e) id).
  set (mine := fun v : VocabularyEntry => String.eqb (vocDocumentId v) id).
  assert (Hnone : filter mine (filter keep (vocabulary s2)) = []).
  { apply filter_filter_none. intros v Hv. unfold keep, mine, strNeq in *.
    now apply negb_true_iff in Hv. }
  destruct (Z.gtb_spec
              (Z.of_nat (List.length (vocabulary s2))
               - Z.of_nat (List.length (filter keep (vocabulary s2)))) 0)
    as [Hgt | Hle]; simpl.
  - exact Hnone.
  - assert (Hall : forallb keep (vocabulary s2) = true).
    { rewrite <- filter_all_kept. apply Nat.eqb_eq.
      pose proof (filter_length_le keep (vocabulary s2)). lia. }
    change (filter mine (vocabulary s2) = []).
    rewrite <- (filter_filter_kept mine (fun _ => true) (vocabulary s2)) by reflexivity.
    rewrite forallb_forall in Hall.
    apply filter_filter_none_in. intros v Hin _. specialize (Hall v Hin).
    unfold keep, mine, strNeq in *. now apply negb_true_iff in Hall.
Qed.

Lemma deleteDocument_keeps_vocabulary_witness :
  hasDocument cascadeStore "D1" = true
  /\ getVocabularyByDocument (fst (deleteDocument "D1" cascadeStore)) "D1"
     = [mkVocabularyEntry "V1" "quick" "The quick brown fox" "D1" None None 6]
  /\ getHighlightsByDocument (fst (deleteDocument "D1" cascadeStore)) "D1" = [].
Proof.
  pose proof (deleteDocument_keeps_vocabulary cascadeStore "D1" eq_refl)
    as [_ [_ [Hvoc [Hhl _]]]].
  split; [reflexivity|]. split; [|exact Hhl].
  rewrite Hvoc. reflexivity.
Defined.

(** One call of [saveNote]: afterwards the returned note stands where the
    highlight's first note stood (or at the end, when it had none); the
    returned note is the existing one with the new content, or the fresh
    one. *)
Lemma saveNote_notesOf (uuid : string) (now : Z) (highlightId content : string)
    (s : Store) :
  let r := saveNote uuid now highlightId content s in
  notesOf (fst r) highlightId = snd r :: tl (notesOf s highlightId)
  /\ match notesOf s highlightId with
     | [] => snd r = mkNote uuid highlightId content now
     | existing :: _ => snd r = withContent existing content
     end.
Proof.
  unfold saveNote, notesOf, getAllNotes.
  set (p := fun n : Note => String.eqb (noteHighlightId n) highlightId).
  destruct (findIndex_cases p (notes s))
    as [[Hi Hf] | [i [x [rest [Hi [Hn [Px [Hf Hset]]]]]]]].
  - rewrite Hi, Hf. simpl. split; [|reflexivity].
    rewrite filter_app, Hf. simpl. unfold p at 1. simpl.
    now rewrite String.eqb_refl.
  - rewrite Hi, Hf.
    destruct (Z.eqb_spec (Z.of_nat i) (-1)); [lia|]. simpl negb. cbv iota.
    rewrite Nat2Z.id, Hn. simpl. split; [|reflexivity].
    apply Hset. exact Px.
Qed.

(** C8 (as amended).  With at most one note stored for [H1], two
    successive calls [saveNote(H1, a)], [saveNote(H1, b)] leave exactly one
    note for [H1]; its content is [b], and its identifier and timestamp are
    those the note had after the first call: the second call's fresh
    identifier and timestamp are not used. *)
Theorem saveNote_twice_keeps_one_note
    (s : Store) (H1 a b uuid1 uuid2 : string) (now1 now2 : Z)
    (Hunique : (List.length (notesOf s H1) <= 1)%nat) :
  let r1 := saveNote uuid1 now1 H1 a s in
  let r2 := saveNote uuid2 now2 H1 b (fst r1) in
  notesOf (fst r2) H1 = [snd r2]
  /\ noteHighlightId (snd r2) = H1
  /\ noteContent (snd r2) = b
  /\ noteId (snd r2) = noteId (snd r1)
  /\ noteCreatedAt (snd r2) = noteCreatedAt (snd r1)
  /\ (notesOf s H1 = [] -> noteId (snd r2) = uuid1 /\ noteCreatedAt (snd r2) = now1).
Proof.
  intros r1 r2.
  destruct (saveNote_notesOf uuid1 now1 H1 a s) as [N1 R1].
  fold r1 in N1, R1.
  assert (Hone : notesOf (fst r1) H1 = [snd r1]).
  { rewrite N1. destruct (notesOf s H1) as [|x [|y l]]; simpl in *;
      [reflexivity | reflexivity | lia]. }
  destruct (saveNote_notesOf uuid2 now2 H1 b (fst r1)) as [N2 R2].
  fold r2 in N2, R2. rewrite Hone in N2, R2. simpl in N2.
  assert (Hhl : noteHighlightId (snd r1) = H1).
  { assert (Hin : In (snd r1) (notesOf (fst r1) H1)) by (rewrite Hone; now left).
    apply filter_In in Hin. now apply String.eqb_eq. }
  split; [exact N2|].
  split; [rewrite R2; exact Hhl|].
  do 3 (split; [now rewrite R2|]).
  intros Hnone. rewrite Hnone in R1. rewrite R2, R1. split; reflexivity.
Qed.

Lemma saveNote_twice_keeps_one_note_witness :
  (List.length (notesOf emptyStore "H1") <= 1)%nat
  /\ notesOf (fst (saveNote "u2" 200 "H1" "b"
                     (fst (saveNote "u1" 100 "H1" "a" emptyStore)))) "H1"
     = [mkNote "u1" "H1" "b" 100].
Proof.
  assert (Hlen : (List.length (notesOf emptyStore "H1") <= 1)%nat)
    by (simpl; lia).
  split; [exact Hlen|].
  destruct (saveNote_twice_keeps_one_note emptyStore "H1" "a" "b" "u1" "u2"
              100 200 Hlen) as [Hnotes _].
  rewrite Hnotes. reflexivity.
Defined.

(** C8 (as stated) fails on the identifier and the timestamp: after
    [saveNote(H1, "a")] with identifier [u1] at time 100 and
    [saveNote(H1, "b")] with identifier [u2] at time 200, the one note of
    [H1] still carries [u1] and 100. *)
Lemma saveNote_second_call_keeps_identifier :
  let r1 := saveNote "u1" 100 "H1" "a" emptyStore in
  let r2 := saveNote "u2" 200 "H1" "b" (fst r1) in
  notes (fst r2) = [mkNote "u1" "H1" "b" 100]
  /\ snd r2 = mkNote "u1" "H1" "b" 100
  /\ noteId (snd r2) <> "u2"
  /\ noteCreatedAt (snd r2) <> 200.
Proof.
  cbv zeta. repeat split; try (vm_compute; reflexivity);
    vm_compute; discriminate.
Qed.

(** [saveNote] keeps the store free of duplicate notes. *)
Lemma saveNote_preserves_uniqueness (uuid : string) (now : Z)
    (highlightId content other : string) (s : Store) :
  (List.length (notesOf s other) <= 1)%nat ->
  (List.length (notesOf (fst (saveNote uuid now highlightId content s)) other) <= 1)%nat.
Proof.
  intros H. destruct (String.eqb_spec other highlightId) as [->|Hneq].
  - destruct (saveNote_notesOf uuid now highlightId content s) as [N _].
    rewrite N. simpl. destruct (notesOf s highlightId) as [|x [|y l]];
      simpl in *; lia.
  - unfold saveNote, notesOf, getAllNotes in *.
    set (p := fun n : Note => String.eqb (noteHighlightId n) highlightId).
    set (q := fun n : Note => String.eqb (noteHighlightId n) other) in *.
    destruct (findIndex_cases p (notes s))
      as [[Hi Hf] | [i [x [rest [Hi [Hn [Px [Hf Hset]]]]]]]].
    + rewrite Hi. simpl. rewrite filter_app. simpl. unfold q at 2. simpl.
      rewrite (proj2 (String.eqb_neq highlightId other)) by congruence.
      rewrite app_nil_r. exact H.
    + rewrite Hi. destruct (Z.eqb_spec (Z.of_nat i) (-1)); [lia|]. simpl negb.
      cbv iota. rewrite Nat2Z.id, Hn. simpl.
      assert (Hq : forall l k y z, nth_error l k = Some y ->
                                   q y = false -> q z = false ->
                                   filter q (setNth k z l) = filter q l).
      { clear. induction l as [|w l IH]; intros [|k] y z Hk Hy Hz; simpl in *;
          try discriminate.
        - inversion Hk. subst. now rewrite Hy, Hz.
        - now rewrite (IH k y z Hk Hy Hz). }
      assert (Qx : q x = false).
      { unfold q, p in *. apply String.eqb_eq in Px. rewrite Px.
        apply String.eqb_neq. congruence. }
      rewrite (Hq _ _ x (withContent x content) Hn Qx Qx). exact H.
Qed.

(* ================================================================== *)
(** ** Further properties of the annotation store *)
(* ================================================================== *)

Section MoreListFacts.

Context {A : Type}.

Lemma find_filter_hd (p : A -> bool) (l : list A) :
  find p l = hd_error (filter p l).
Proof.
  induction l as [|x l IH]; simpl; [reflexivity|].
  destruct (p x); [reflexivity | exact IH].
Qed.

Lemma filter_all_same (p : A -> bool) (l : list A) :
  forallb p l = true -> filter p l = l.
Proof.
  induction l as [|x l IH]; simpl; [reflexivity|].
  destruct (p x); simpl; [|discriminate]. intros H. now rewrite IH.
Qed.

(** Removing by [filter] and reporting whether the length changed. *)
Lemma filter_or_keep (p : A -> bool) (l : list A) :
  (if Nat.eqb (List.length (filter p l)) (List.length l) then l else filter p l)
  = filter p l.
Proof.
  rewrite filter_all_kept. destruct (forallb p l) eqn:E; [|reflexivity].
  symmetry. now apply filter_all_same.
Qed.

Lemma find_app_none (p : A -> bool) (l : list A) (x : A) :
  find p l = None -> find p (l ++ [x]) = (if p x then Some x else None).
Proof.
  induction l as [|y l IH]; simpl; [reflexivity|].
  destruct (p y); [discriminate | exact IH].
Qed.

Lemma find_app_skip (p : A -> bool) (l : list A) (x : A) :
  p x = false -> find p (l ++ [x]) = find p l.
Proof.
  intros Px. induction l as [|y l IH]; simpl; [now rewrite Px|].
  destruct (p y); [reflexivity | exact IH].
Qed.

Lemma find_filter_other (p q : A -> bool) (l : list A) :
  (forall x, p x = true -> q x = true) -> find p (filter q l) = find p l.
Proof.
  intros H. rewrite !find_filter_hd. now rewrite filter_filter_kept.
Qed.

Lemma find_none_existsb (p : A -> bool) (l : list A) :
  existsb p l = false -> find p l = None.
Proof.
  induction l as [|x l IH]; simpl; [reflexivity|].
  destruct (p x); simpl; [discriminate | exact IH].
Qed.

(** What [findIndex] finds is what [find] finds, and what replacing the
    element found does to lookups. *)
Lemma findIndex_find (p : A -> bool) (l : list A) :
  (findIndex p l = -1 /\ find p l = None)
  \/ (exists i x,
         findIndex p l = Z.of_nat i
         /\ nth_error l i = Some x
         /\ find p l = Some x
         /\ (forall y, p y = true -> find p (setNth i y l) = Some y)
         /\ (forall y q, q x = false -> q y = false ->
                         find q (setNth i y l) = find q l)
         /\ (forall y, List.length (setNth i y l) = List.length l)
         /\ (forall (B : Type) (f : A -> B) y,
                f y = f x -> map f (setNth i y l) = map f l)).
Proof.
  induction l as [|x l IH]; simpl.
  - left. split; reflexivity.
  - destruct (p x) eqn:P.
    + right. exists O, x. repeat split; try reflexivity.
      * intros y Py. simpl. now rewrite Py.
      * intros y q Qx Qy. simpl. now rewrite Qx, Qy.
      * intros B f y Hf. simpl. now rewrite Hf.
    + destruct IH as [[Hi Hf] | [i [x' [Hi [Hn [Hf [Hp [Hq [Hl Hm]]]]]]]]].
      * left. rewrite Hi. split; [reflexivity | exact Hf].
      * right. exists (S i), x'. rewrite Hi.
        destruct (Z.eqb_spec (Z.of_nat i) (-1)); [lia|].
        repeat split; try assumption; try lia.
        -- intros y Py. simpl. rewrite P. now apply Hp.
        -- intros y q Qx Qy. simpl. now rewrite (Hq y q Qx Qy).
        -- intros y. simpl. now rewrite Hl.
        -- intros B f y Hfy. simpl. now rewrite (Hm B f y Hfy).
Qed.

End MoreListFacts.

Lemma deleteHighlight_missing (id : string) (s : Store) :
  hasHighlight s id = false -> deleteHighlight id s = (s, false).
Proof.
  intros H. pose proof (deleteHighlight_found id s) as F. rewrite H in F.
  unfold deleteHighlight in *.
  destruct (Nat.eqb _ _); [reflexivity | discriminate].
Qed.

Lemma deleteDocument_missing (id : string) (s : Store) :
  hasDocument s id = false -> deleteDocument id s = (s, false).
Proof.
  intros H. pose proof (deleteDocument_found id s) as F. rewrite H in F.
  unfold deleteDocument in *.
  destruct (Nat.eqb _ _); [reflexivity | discriminate].
Qed.

Lemma deleteDocument_removes (id : string) (s : Store) :
  hasDocument s id = true -> hasDocument (fst (deleteDocument id s)) id = false.
Proof.
  intros H. rewrite (deleteDocument_effect id s H). unfold hasDocument. simpl.
  rewrite existsb_forallb. apply negb_false_iff, forallb_forall.
  intros d Hin. apply filter_In in Hin. exact (proj2 Hin).
Qed.

(** X1.  After [saveNote(h, c)], whatever the store held before,
    [getNoteByHighlight(h)] returns the note [saveNote] returned, and that
    note belongs to [h] and has the content [c]. *)
Theorem saveNote_then_getNoteByHighlight
    (uuid : string) (now : Z) (highlightId content : string) (s : Store) :
  let r := saveNote uuid now highlightId content s in
  getNoteByHighlight (fst r) highlightId = Some (snd r)
  /\ noteHighlightId (snd r) = highlightId
  /\ noteContent (snd r) = content.
Proof.
  intros r.
  destruct (saveNote_notesOf uuid now highlightId content s) as [N R].
  fold r in N, R. unfold getNoteByHighlight, getAllNotes.
  rewrite find_filter_hd. unfold notesOf in N. rewrite N. simpl.
  split; [reflexivity|].
  destruct (notesOf s highlightId) as [|x l] eqn:E; rewrite R; simpl.
  - split; reflexivity.
  - split; [|reflexivity].
    assert (Hin : In x (notesOf s highlightId)) by (rewrite E; now left).
    apply filter_In in Hin. now apply String.eqb_eq.
Qed.

(** X2.  Deleting is idempotent.  A second [deleteHighlight] (or
    [deleteDocument]) with the same id returns [false] and leaves the store
    exactly as the first call left it. *)
Theorem delete_twice_changes_nothing (id : string) (s : Store) :
  deleteHighlight id (fst (deleteHighlight id s))
  = (fst (deleteHighlight id s), false)
  /\ deleteDocument id (fst (deleteDocument id s))
     = (fst (deleteDocument id s), false).
Proof.
  split.
  - apply deleteHighlight_missing.
    destruct (hasHighlight s id) eqn:H.
    + now apply (deleteHighlight_cascades_notes id s H).
    + now rewrite (deleteHighlight_missing id s H).
  - apply deleteDocument_missing.
    destruct (hasDocument s id) eqn:H.
    + now apply deleteDocument_removes.
    + now rewrite (deleteDocument_missing id s H).
Qed.

(** X3.  A highlight created under an identifier no stored highlight
    carries is found again by [getHighlightById], is listed last among its
    document's highlights, and no other lookup changes. *)
Theorem createHighlight_then_lookup
    (uuid : string) (now : Z) (documentId : string) (type : HighlightType)
    (text : string) (anchor : Anchor) (s : Store)
    (Hfresh : hasHighlight s uuid = false) :
  let r := createHighlight uuid now documentId type text anchor s in
  getHighlightById (fst r) uuid = Some (snd r)
  /\ getHighlightsByDocument (fst r) documentId
     = (getHighlightsByDocument s documentId ++ [snd r])%list
  /\ (forall other, other <> uuid ->
        getHighlightById (fst r) other = getHighlightById s other)
  /\ (forall other, other <> documentId ->
        getHighlightsByDocument (fst r) other = getHighlightsByDocument s other)
  /\ notes (fst r) = notes s.
Proof.
  intros r. unfold r, createHighlight, getHighlightById, getHighlightsByDocument,
    getAllHighlights. simpl.
  repeat split.
  - rewrite find_app_none; [simpl; now rewrite String.eqb_refl|].
    now apply find_none_existsb.
  - rewrite filter_app. simpl. now rewrite String.eqb_refl.
  - intros other Hother. apply find_app_skip. simpl.
    apply String.eqb_neq. congruence.
  - intros other Hother. rewrite filter_app. simpl.
    rewrite (proj2 (String.eqb_neq documentId other)) by congruence.
    apply app_nil_r.
Qed.

Lemma createHighlight_then_lookup_witness :
  hasHighlight cascadeStore "H3" = false
  /\ getHighlightById
       (fst (createHighlight "H3" 8 "D1" insight "quick" sampleAnchor cascadeStore)) "H3"
     = Some (mkHighlight "H3" "D1" insight "quick" sampleAnchor 8).
Proof.
  split; [reflexivity|].
  exact (proj1 (createHighlight_then_lookup "H3" 8 "D1" insight "quick"
                  sampleAnchor cascadeStore eq_refl)).
Defined.

(** X4.  [updateHighlightType] on an id that is not stored returns [null]
    and changes nothing; otherwise it returns the stored highlight with only
    its type replaced, later lookups of the id give that highlight, and the
    order and identifiers of the highlights, the other highlights and the
    notes are untouched. *)
Theorem updateHighlightType_changes_only_type
    (id : string) (type : HighlightType) (s : Store) :
  let r := updateHighlightType id type s in
  match getHighlightById s id with
  | None => r = (s, None)
  | Some h =>
      snd r = Some (withType h type)
      /\ getHighlightById (fst r) id = Some (withType h type)
      /\ map hlId (highlights (fst r)) = map hlId (highlights s)
      /\ (forall other, other <> id ->
            getHighlightById (fst r) other = getHighlightById s other)
      /\ notes (fst r) = notes s
  end.
Proof.
  intros r. unfold r, updateHighlightType, getHighlightById, getAllHighlights.
  destruct (findIndex_find (fun h => String.eqb (hlId h) id) (highlights s))
    as [[Hi Hf] | [i [x [Hi [Hn [Hf [Hp [Hq [_ Hm]]]]]]]]]; rewrite Hi, Hf.
  - reflexivity.
  - destruct (Z.eqb_spec (Z.of_nat i) (-1)); [lia|].
    rewrite Nat2Z.id, Hn. simpl.
    assert (Hx : hlId x = id).
    { apply find_some in Hf. now apply String.eqb_eq. }
    repeat split.
    + apply Hp. simpl. now apply String.eqb_eq.
    + now apply Hm.
    + intros other Hother. apply Hq; simpl; apply String.eqb_neq; congruence.
Qed.

(** X5.  [updateDocumentTitle] on an id that is not stored returns [null]
    and changes nothing; otherwise only the title of the first document
    with that id changes: identifiers, order, the other documents and the
    highlights stay. *)
Theorem updateDocumentTitle_changes_only_title (id title : string) (s : Store) :
  let r := updateDocumentTitle id title s in
  match getDocumentById s id with
  | None => r = (s, None)
  | Some d =>
      snd r = Some (withTitle d title)
      /\ getDocumentById (fst r) id = Some (withTitle d title)
      /\ map docId (documents (fst r)) = map docId (documents s)
      /\ (forall other, other <> id ->
            getDocumentById (fst r) other = getDocumentById s other)
      /\ highlights (fst r) = highlights s
  end.
Proof.
  intros r. unfold r, updateDocumentTitle, getDocumentById, getAllDocuments.
  destruct (findIndex_find (fun d => String.eqb (docId d) id) (documents s))
    as [[Hi Hf] | [i [x [Hi [Hn [Hf [Hp [Hq [_ Hm]]]]]]]]]; rewrite Hi, Hf.
  - reflexivity.
  - destruct (Z.eqb_spec (Z.of_nat i) (-1)); [lia|].
    rewrite Nat2Z.id, Hn. simpl.
    assert (Hx : docId x = id).
    { apply find_some in Hf. now apply String.eqb_eq. }
    repeat split.
    + apply Hp. simpl. now apply String.eqb_eq.
    + now apply Hm.
    + intros other Hother. apply Hq; simpl; apply String.eqb_neq; congruence.
Qed.

Lemma length_by_type (l : list Highlight) :
  List.length l
  = (List.length (filter (fun h => highlightTypeEqb (hlType h) insight) l)
     + List.length (filter (fun h => highlightTypeEqb (hlType h) definition) l)
     + List.length (filter (fun h => highlightTypeEqb (hlType h) question) l))%nat.
Proof.
  induction l as [|h l IH]; simpl; [reflexivity|].
  destruct (hlType h); simpl; lia.
Qed.

(** X6.  In [getHighlightStats] the three per-type counts add up to the
    total, the total for a document is the number of its highlights, and an
    empty document id counts all highlights, like an absent one. *)
Theorem getHighlightStats_counts_add_up (s : Store) (documentId : option string) :
  let st := getHighlightStats s documentId in
  statsTotal st = statsInsight st + statsDefinition st + statsQuestion st
  /\ (forall d, d <> "" ->
        statsTotal (getHighlightStats s (Some d))
        = Z.of_nat (List.length (getHighlightsByDocument s d)))
  /\ getHighlightStats s (Some "") = getHighlightStats s None.
Proof.
  intros st. repeat split.
  - unfold st, getHighlightStats. simpl.
    match goal with |- Z.of_nat (List.length ?l) = _ => rewrite (length_by_type l) end.
    lia.
  - intros d Hd. unfold getHighlightStats. simpl.
    now rewrite (proj2 (String.eqb_neq d "") Hd).
Qed.


(** X8.  [deleteHighlight] followed by [deleteAIOutputsByHighlight] is the
    full cascade: for a stored highlight, the highlight, its notes and its AI
    outputs are gone, and the notes, AI outputs and lookups of every other
    highlight, the documents and the vocabulary are as before. *)
Theorem deleteHighlight_then_ai_outputs_cascades
    (id : string) (s : Store) (Hstored : hasHighlight s id = true) :
  let s' := deleteAIOutputsByHighlight id (fst (deleteHighlight id s)) in
  hasHighlight s' id = false
  /\ notesOf s' id = []
  /\ getAIOutputsByHighlight s' id = []
  /\ (forall other, other <> id ->
        notesOf s' other = notesOf s other
        /\ getAIOutputsByHighlight s' other = getAIOutputsByHighlight s other
        /\ getHighlightById s' other = getHighlightById s other)
  /\ documents s' = documents s
  /\ vocabulary s' = vocabulary s.
Proof.
  intros s'. unfold s'. rewrite (deleteHighlight_effect id s Hstored).
  unfold deleteAIOutputsByHighlight, hasHighlight, notesOf, getAIOutputsByHighlight,
    getHighlightById, getAllAIOutputs, getAllHighlights. simpl.
  assert (Hne : forall a other, other <> id ->
                  String.eqb a other = true -> strNeq a id = true).
  { intros a other Hother Ha. apply String.eqb_eq in Ha. unfold strNeq.
    apply negb_true_iff, String.eqb_neq. congruence. }
  repeat split.
  - rewrite existsb_forallb. apply negb_false_iff, forallb_forall.
    intros h Hin. apply filter_In in Hin. exact (proj2 Hin).
  - apply filter_filter_none. intros n Hn. unfold strNeq in Hn.
    now apply negb_true_iff in Hn.
  - apply filter_filter_none. intros o Ho. unfold strNeq in Ho.
    now apply negb_true_iff in Ho.
  - apply filter_filter_kept. intros n. now apply Hne.
  - apply filter_filter_kept. intros o. now apply Hne.
  - apply find_filter_other. intros h. now apply Hne.
Qed.

Lemma deleteHighlight_then_ai_outputs_cascades_witness :
  hasHighlight cascadeStore "H1" = true
  /\ getAIOutputsByHighlight
       (deleteAIOutputsByHighlight "H1" (fst (deleteHighlight "H1" cascadeStore))) "H1"
     = []
  /\ notesOf
       (deleteAIOutputsByHighlight "H1" (fst (deleteHighlight "H1" cascadeStore))) "H2"
     = [mkNote "N2" "H2" "second note" 5].
Proof.
  destruct (deleteHighlight_then_ai_outputs_cascades "H1" cascadeStore eq_refl)
    as [_ [_ [Hai [Hother _]]]].
  split; [reflexivity|]. split; [exact Hai|].
  assert (Hneq : "H2" <> "H1") by discriminate.
  rewrite (proj1 (Hother "H2" Hneq)). reflexivity.
Defined.


(* ================================================================== *)
(** ** Article storage *)
(* ================================================================== *)

(** X10.  When the write succeeds, [storeArticle] leaves exactly one
    article under the article's id, the one just stored, which
    [getArticleById] returns, and the articles under other ids are found as
    before; when the write fails, an error is raised and the stored articles
    are unchanged. *)
Theorem storeArticle_then_lookup
    (setItem : list StoredArticle -> bool) (article : StoredArticle)
    (articles : list StoredArticle) :
  let r := storeArticle setItem article articles in
  match snd r with
  | None =>
      getArticleById (fst r) (artId article) = Some article
      /\ filter (fun a => String.eqb (artId a) (artId article)) (fst r) = [article]
      /\ (forall other, other <> artId article ->
            getArticleById (fst r) other = getArticleById articles other)
  | Some message =>
      fst r = articles /\ message = "Storage full. Please remove some documents."
  end.
Proof.
  intros r. unfold r, storeArticle.
  destruct (setItem _); simpl; [|split; reflexivity].
  set (keep := fun a : StoredArticle => strNeq (artId a) (artId article)).
  assert (Hnone : filter (fun a => String.eqb (artId a) (artId article))
                    (filter keep articles) = []).
  { apply filter_filter_none. intros a Ha. unfold keep, strNeq in Ha.
    now apply negb_true_iff in Ha. }
  unfold getArticleById. repeat split.
  - rewrite find_filter_hd, filter_app, Hnone. simpl.
    now rewrite String.eqb_refl.
  - rewrite filter_app, Hnone. simpl. now rewrite String.eqb_refl.
  - intros other Hother. rewrite find_app_skip.
    + apply find_filter_other. intros a Ha. apply String.eqb_eq in Ha.
      unfold keep, strNeq. apply negb_true_iff, String.eqb_neq. congruence.
    + apply String.eqb_neq. congruence.
Qed.

(** X11.  After [deleteArticle(id)] no article is found under [id], also
    when several were stored under it, and every other lookup is
    unchanged. *)
Theorem deleteArticle_then_lookup (id : string) (articles : list StoredArticle) :
  getArticleById (deleteArticle id articles) id = None
  /\ (forall other, other <> id ->
        getArticleById (deleteArticle id articles) other
        = getArticleById articles other).
Proof.
  unfold getArticleById, deleteArticle. split.
  - rewrite find_filter_hd, filter_filter_none; [reflexivity|].
    intros a Ha. unfold strNeq in Ha. now apply negb_true_iff in Ha.
  - intros other Hother. apply find_filter_other. intros a Ha.
    apply String.eqb_eq in Ha. unfold strNeq.
    apply negb_true_iff, String.eqb_neq. congruence.
Qed.

(* ================================================================== *)
(** ** CSV escaping *)
(* ================================================================== *)

Lemma doubleQuotes_injective (a b : string) :
  doubleQuotes a = doubleQuotes b -> a = b.
Proof.
  revert b; induction a as [|x a IH]; intros [|y b]; simpl.
  - reflexivity.
  - destruct (Ascii.eqb y dquote); discriminate.
  - destruct (Ascii.eqb x dquote); discriminate.
  - destruct (Ascii.eqb_spec x dquote) as [->|Hx];
      destruct (Ascii.eqb_spec y dquote) as [->|Hy]; intros H.
    + inversion H. f_equal. now apply IH.
    + inversion H. congruence.
    + inversion H. congruence.
    + inversion H. f_equal. now apply IH.
Qed.

Lemma append_cancel_last (a b : string) (c : ascii) :
  a ++ String c "" = b ++ String c "" -> a = b.
Proof.
  revert b; induction a as [|x a IH]; intros [|y b]; simpl; intros H.
  - reflexivity.
  - inversion H. destruct b; discriminate.
  - inversion H. destruct a; discriminate.
  - inversion H. f_equal. now apply IH.
Qed.

Lemma includes_first (c : ascii) (rest : string) :
  includes (String c rest) (String c "") = true.
Proof. apply includes_iff. exists "", rest. reflexivity. Qed.

(** X12.  [escapeCsv] never maps two different values to the same field. *)
Theorem escapeCsv_injective (v1 v2 : string)
    (Hsame : escapeCsv v1 = escapeCsv v2) : v1 = v2.
Proof.
  unfold escapeCsv in Hsame.
  destruct (includes v1 "," || includes v1 (String dquote "")
            || includes v1 (String linefeed "")) eqn:S1;
    destruct (includes v2 "," || includes v2 (String dquote "")
              || includes v2 (String linefeed "")) eqn:S2.
  - inversion Hsame as [H]. apply append_cancel_last in H.
    now apply doubleQuotes_injective.
  - subst v2. rewrite includes_first in S2.
    rewrite orb_true_r in S2. discriminate.
  - subst v1. rewrite includes_first in S1.
    rewrite orb_true_r in S1. discriminate.
  - exact Hsame.
Qed.

Lemma escapeCsv_injective_witness :
  escapeCsv "quick, brown" = String dquote ("quick, brown" ++ String dquote "")
  /\ "quick, brown" = "quick, brown".
Proof.
  split; [reflexivity|].
  exact (escapeCsv_injective "quick, brown" "quick, brown" eq_refl).
Defined.

(* ================================================================== *)
(** ** Further properties of context extraction and resolution *)
(* ================================================================== *)

Lemma strlen_append (a b : string) : strlen (a ++ b) = strlen a + strlen b.
Proof. unfold strlen. rewrite length_append. lia. Qed.

Lemma strlen_nonneg (s : string) : 0 <= strlen s.
Proof. unfold strlen. lia. Qed.

Lemma drop_app_le (n : nat) (a b : string) :
  (n <= String.length a)%nat -> drop n (a ++ b) = drop n a ++ b.
Proof.
  revert a; induction n as [|n IH]; intros [|x a] H; simpl in *;
    try reflexivity; try lia.
  apply IH. lia.
Qed.


Lemma drop_app_ge (n : nat) (a b : string) :
  (String.length a <= n)%nat -> drop n (a ++ b) = drop (n - String.length a) b.
Proof.
  revert n; induction a as [|x a IH]; intros n H; simpl in *.
  - now rewrite Nat.sub_0_r.
  - destruct n as [|n]; [lia|]. simpl. apply IH. lia.
Qed.

Lemma take_app_le (n : nat) (a b : string) :
  (n <= String.length a)%nat -> take n (a ++ b) = take n a.
Proof.
  revert a; induction n as [|n IH]; intros [|x a] H; simpl in *;
    try reflexivity; try lia.
  f_equal. apply IH. lia.
Qed.

Lemma take_app_ge (n : nat) (a b : string) :
  (String.length a <= n)%nat -> take n (a ++ b) = a ++ take (n - String.length a) b.
Proof.
  revert n; induction a as [|x a IH]; intros n H; simpl in *.
  - now rewrite Nat.sub_0_r.
  - destruct n as [|n]; [lia|]. simpl. f_equal. apply IH. lia.
Qed.

Lemma drop_length (n : nat) (s : string) :
  String.length (drop n s) = (String.length s - n)%nat.
Proof.
  revert s; induction n as [|n IH]; intros [|c s]; simpl; try reflexivity.
  apply IH.
Qed.

(** Where [indexOf] finds the needle. *)
Lemma indexOf_decompose (hay needle : string) :
  indexOf hay needle <> -1 ->
  exists pre post, hay = pre ++ needle ++ post /\ strlen pre = indexOf hay needle.
Proof.
  induction hay as [|c hay IH]; cbn [indexOf].
  - destruct (String.prefix needle "") eqn:P.
    + intros _. apply prefix_iff in P. destruct P as [post P].
      exists "", post. split; [exact P | reflexivity].
    + congruence.
  - destruct (String.prefix needle (String c hay)) eqn:P.
    + intros _. apply prefix_iff in P. destruct P as [post P].
      exists "", post. split; [exact P | reflexivity].
    + destruct (Z.eqb_spec (indexOf hay needle) (-1)) as [E|E]; [congruence|].
      intros _. destruct (IH E) as [pre [post [Hh Hl]]].
      exists (String c pre), post. split; [simpl; now rewrite <- Hh|].
      unfold strlen in *. simpl String.length. lia.
Qed.

(** A slice that starts before an occurrence and ends after it contains
    it. *)
Lemma slice_covers (pre mid post : string) (b e : Z) :
  0 <= b <= strlen pre -> strlen pre + strlen mid <= e ->
  includes (slice (pre ++ mid ++ post) b e) mid = true.
Proof.
  intros Hb He. unfold slice. rewrite !strlen_append.
  pose proof (strlen_nonneg pre). pose proof (strlen_nonneg mid).
  pose proof (strlen_nonneg post).
  destruct (Z.ltb_spec b 0); [lia|]. destruct (Z.ltb_spec e 0); [lia|].
  rewrite (Z.min_l b) by lia.
  rewrite drop_app_le by (unfold strlen in *; lia).
  rewrite <- append_assoc.
  rewrite take_app_ge.
  2:{ rewrite length_append, drop_length. unfold strlen in *. lia. }
  apply includes_app_l, includes_app_r, includes_refl.
Qed.

Lemma slice_length_le (s : string) (b e : Z) :
  0 <= b -> 0 <= e -> strlen (slice s b e) <= Z.max 0 (e - b).
Proof.
  intros Hb He. unfold slice, strlen.
  destruct (Z.ltb_spec b 0); [lia|]. destruct (Z.ltb_spec e 0); [lia|].
  rewrite take_length. lia.
Qed.

(** X13.  For a non-negative radius, the context [extractContext] returns
    always contains the selected text, and is at most the selected text's
    length plus twice the radius long. *)
Theorem extractContext_contains_selection
    (doc : Node) (range : Range) (radius : Z) (Hradius : 0 <= radius) :
  let selected := rangeToString doc range in
  let context := extractContext doc range radius in
  includes context selected = true
  /\ strlen context <= strlen selected + 2 * radius.
Proof.
  intros selected context. unfold context, extractContext. fold selected.
  set (text := match nodeAt doc (commonAncestorContainer range) with
               | Some n => textContent n
               | None => ""
               end).
  pose proof (strlen_nonneg selected) as Hsel.
  destruct (Z.eqb_spec (indexOf text selected) (-1)) as [E | E].
  - split; [apply includes_refl | lia].
  - destruct (indexOf_decompose text selected E) as [pre [post [Htext Hpre]]].
    pose proof (strlen_nonneg pre) as Hp. pose proof (strlen_nonneg post) as Hq.
    rewrite <- Hpre. split.
    + rewrite Htext. apply slice_covers; [lia|].
      rewrite !strlen_append. lia.
    + pose proof (strlen_nonneg text) as Ht.
      etransitivity; [apply slice_length_le; lia|]. lia.
Qed.

Lemma extractContext_contains_selection_witness :
  0 <= 30
  /\ includes (extractContext foxDoc foxSelection 30) "brown" = true.
Proof.
  assert (H : 0 <= 30) by lia.
  split; [exact H|].
  exact (proj1 (extractContext_contains_selection foxDoc foxSelection 30 H)).
Defined.

(** The span loop finds nothing exactly when the text ends at or before the
    start offset. *)
Lemma pdfSpanRects_nil_iff (spans : TextLayer) (from startOffset endOffset : Z) :
  from <= startOffset -> startOffset < endOffset ->
  (pdfSpanRects spans from startOffset endOffset = []
   <-> from + layerLength spans <= startOffset).
Proof.
  revert from; induction spans as [|span rest IH]; intros from Hfrom Hrange.
  - simpl. unfold layerLength. simpl. split; [intros _; unfold strlen; simpl; lia
                                              | reflexivity].
  - cbn [pdfSpanRects]. unfold layerLength in *. cbn [map concatStrings fold_right].
    rewrite strlen_append.
    pose proof (strlen_nonneg (spanTextContent span)) as Hlen.
    pose proof (strlen_nonneg (concatStrings (map spanTextContent rest))) as Hrest.
    fold (concatStrings (map spanTextContent rest)).
    destruct (Z.gtb_spec (from + strlen (spanTextContent span)) startOffset) as [Hin | Hout].
    + destruct (Z.ltb_spec from endOffset); [|lia]. simpl.
      split; [discriminate | lia].
    + simpl. rewrite IH by lia. lia.
Qed.

(** X14.  A PDF anchor that passes the context check and has a non-empty
    range from a non-negative start resolves to rectangles exactly when its
    start offset lies inside the text of the current spans; the end offset
    may lie beyond it. *)
Theorem resolvePdfAnchor_resolves_iff
    (pageNumber startOffset endOffset : Z) (context pageText : string)
    (spans : TextLayer)
    (Hverified : includes pageText (slice context 10 (-10)) = true)
    (Hrange : 0 <= startOffset < endOffset) :
  resolvePdfAnchor (mkPdfAnchor pageNumber startOffset endOffset context)
    pageText (Some spans) = None
  <-> layerLength spans <= startOffset.
Proof.
  unfold resolvePdfAnchor, pdfOffsetGeometry. simpl. rewrite Hverified. simpl.
  rewrite <- (pdfSpanRects_nil_iff spans 0 startOffset endOffset) by lia.
  destruct (pdfSpanRects spans 0 startOffset endOffset); simpl; split;
    congruence.
Qed.

Lemma resolvePdfAnchor_resolves_iff_witness :
  resolvePdfAnchor (mkPdfAnchor 1 25 30 "The quick brown fox") "Lorem ipsum"
    (Some [mkSpan "Lorem" sampleRect; mkSpan "ipsum" sampleRect]) = None
  <-> layerLength [mkSpan "Lorem" sampleRect; mkSpan "ipsum" sampleRect] <= 25.
Proof.
  apply resolvePdfAnchor_resolves_iff; [reflexivity | lia].
Defined.

Lemma toUint32_small (z : Z) : 0 <= z < 2 ^ 32 -> toUint32 z = z.
Proof. intros H. unfold toUint32. now apply Z.mod_small. Qed.

Lemma toUint32_negative (z : Z) : - 2 ^ 32 <= z < 0 -> toUint32 z = z + 2 ^ 32.
Proof.
  intros H. unfold toUint32.
  rewrite <- (Z_mod_plus_full z 1 (2 ^ 32)). rewrite Z.mul_1_l.
  apply Z.mod_small. lia.
Qed.

(** X15.  On the text node it works on (shorter than 2^31 code units),
    [resolveHtmlAnchor] returns [null] whenever a stored offset is negative
    or exceeds the text's current length; with both offsets inside the text
    and the context check passed, the layout is asked for exactly the range
    between the stored offsets, and for an empty range at the end offset
    when the end lies before the start. *)
Theorem resolveHtmlAnchor_offset_bounds
    (evaluate : string -> Node -> option Node)
    (getClientRects : TextRange -> list BoundingRect)
    (xpath context : string) (startOffset endOffset : Z)
    (doc node : Node) (nodeText : string)
    (Hnode : evaluate xpath doc = Some node)
    (Htext : anchoredTextNode node = Some nodeText)
    (Hlen : strlen nodeText < 2 ^ 31)
    (Hstart : - 2 ^ 31 <= startOffset < 2 ^ 31)
    (Hend : - 2 ^ 31 <= endOffset < 2 ^ 31) :
  let anchor := mkHtmlAnchor xpath startOffset endOffset context in
  (startOffset < 0 \/ strlen nodeText < startOffset
   \/ endOffset < 0 \/ strlen nodeText < endOffset ->
   resolveHtmlAnchor evaluate getClientRects anchor doc = None)
  /\ (includes nodeText (slice context 10 (-10)) = true ->
      0 <= startOffset <= strlen nodeText -> 0 <= endOffset <= strlen nodeText ->
      resolveHtmlAnchor evaluate getClientRects anchor doc
      = nonEmptyOrNull
          (getClientRects
             (mkTextRange nodeText (Z.min startOffset endOffset) endOffset))).
Proof.
  intros anchor.
  unfold resolveHtmlAnchor, resolveHtmlRange, resolveXPath, htmlOffsetRange,
    setStartThenEnd. simpl. rewrite Hnode, Htext.
  pose proof (strlen_nonneg nodeText) as Hnn.
  assert (H31 : 2 ^ 31 = 2147483648) by reflexivity.
  assert (H32 : 2 ^ 32 = 4294967296) by reflexivity.
  split.
  - intros Hout.
    destruct (negb (includes nodeText (slice context 10 (-10)))); [reflexivity|].
    destruct (Z_lt_le_dec startOffset 0) as [Hs | Hs].
    + rewrite (toUint32_negative startOffset) by lia.
      destruct (Z.gtb_spec (startOffset + 2 ^ 32) (strlen nodeText)); [reflexivity | lia].
    + rewrite (toUint32_small startOffset) by lia.
      destruct (Z.gtb_spec startOffset (strlen nodeText)); [reflexivity|].
      destruct (Z_lt_le_dec endOffset 0) as [He | He].
      * rewrite (toUint32_negative endOffset) by lia.
        destruct (Z.gtb_spec (endOffset + 2 ^ 32) (strlen nodeText)); [reflexivity | lia].
      * rewrite (toUint32_small endOffset) by lia.
        destruct (Z.gtb_spec endOffset (strlen nodeText)); [reflexivity | lia].
  - intros Hcore Hs He. rewrite Hcore. simpl.
    rewrite (toUint32_small startOffset), (toUint32_small endOffset) by lia.
    destruct (Z.gtb_spec startOffset (strlen nodeText)); [lia|].
    destruct (Z.gtb_spec endOffset (strlen nodeText)); [lia|].
    destruct (Z.ltb_spec endOffset startOffset).
    + now rewrite Z.min_r by lia.
    + now rewrite Z.min_l by lia.
Qed.

Lemma resolveHtmlAnchor_offset_bounds_witness :
  resolveHtmlAnchor evaluateLocationPath (fun _ => [sampleRect])
    (mkHtmlAnchor "/article[1]/p[1]" 10 40 "The quick brown fox") foxDoc = None.
Proof.
  refine (proj1 (resolveHtmlAnchor_offset_bounds evaluateLocationPath
                   (fun _ => [sampleRect]) "/article[1]/p[1]" "The quick brown fox"
                   10 40 foxDoc (ElementNode "P" [TextNode "The quick brown fox"])
                   "The quick brown fox" eq_refl eq_refl _ _ _) _).
  - vm_compute. reflexivity.
  - split; vm_compute; [discriminate | reflexivity].
  - split; vm_compute; [discriminate | reflexivity].
  - right. right. right. vm_compute. reflexivity.
Defined.

(* ================================================================== *)
(** ** Creating an anchor and resolving it again *)
(* ================================================================== *)

Lemma nodeAt_app (doc : Node) (p q : NodePath) :
  nodeAt doc (p ++ q)%list
  = match nodeAt doc p with
    | Some n => nodeAt n q
    | None => None
    end.
Proof.
  revert doc; induction p as [|i p IH]; intros doc; simpl; [reflexivity|].
  destruct doc as [d | tag kids]; [reflexivity|].
  destruct (nth_error kids i); [apply IH | reflexivity].
Qed.

Lemma commonPrefix_same (p : NodePath) : commonPrefix p p = p.
Proof.
  induction p as [|i p IH]; simpl; [reflexivity|].
  now rewrite Nat.eqb_refl, IH.
Qed.

Lemma concatStrings_app (a b : list string) :
  concatStrings (a ++ b)%list = concatStrings a ++ concatStrings b.
Proof.
  induction a as [|x a IH]; simpl; [reflexivity|].
  now rewrite IH, append_assoc.
Qed.

Lemma children_text_split (kids : list Node) (i : nat) (c : Node) :
  nth_error kids i = Some c ->
  concatStrings (map textContent kids)
  = concatStrings (map textContent (firstn i kids))
    ++ textContent c ++ concatStrings (map textContent (skipn (S i) kids)).
Proof.
  revert i; induction kids as [|k kids IH]; intros [|i] H; simpl in *;
    try discriminate.
  - now inversion H.
  - rewrite (IH i H). now rewrite append_assoc.
Qed.

(** The text of a node lies in the document's text right after the code
    units that precede the node. *)
Lemma textContent_at (doc : Node) (path : NodePath) (n : Node) :
  nodeAt doc path = Some n ->
  exists pre post,
    textContent doc = pre ++ textContent n ++ post
    /\ String.length pre = charsBefore doc path.
Proof.
  revert doc; induction path as [|i rest IH]; intros doc H; simpl in H.
  - inversion H. exists "", "". simpl. now rewrite append_nil_r.
  - destruct doc as [d | tag kids]; [discriminate|].
    destruct (nth_error kids i) as [c|] eqn:E; [|discriminate].
    destruct (IH c H) as [pre [post [Htext Hlen]]].
    exists (concatStrings (map textContent (firstn i kids)) ++ pre),
      (post ++ concatStrings (map textContent (skipn (S i) kids))).
    split.
    + simpl. rewrite (children_text_split kids i c E), Htext.
      now rewrite !append_assoc.
    + simpl. rewrite E, length_append, Hlen. reflexivity.
Qed.

Lemma slice_inside (d : string) (a b : nat) :
  (a <= b <= String.length d)%nat ->
  slice d (Z.of_nat a) (Z.of_nat b) = take (b - a) (drop a d).
Proof.
  intros H. unfold slice, strlen.
  destruct (Z.ltb_spec (Z.of_nat a) 0); [lia|].
  destruct (Z.ltb_spec (Z.of_nat b) 0); [lia|].
  f_equal; [|f_equal]; lia.
Qed.

(** The text of a range that lies inside one text node. *)
Lemma rangeToString_in_text_node (doc : Node) (path : NodePath) (d : string)
    (a b : nat) :
  nodeAt doc path = Some (TextNode d) ->
  (a <= b <= String.length d)%nat ->
  rangeToString doc (mkRange path a path b) = take (b - a) (drop a d).
Proof.
  intros Hnode Hab. unfold rangeToString, boundaryPosition. simpl.
  rewrite Hnode.
  destruct (textContent_at doc path _ Hnode) as [pre [post [Htext Hlen]]].
  simpl in Htext. rewrite Htext, <- Hlen.
  rewrite !Nat.min_l by lia.
  replace (String.length pre + b - (String.length pre + a))%nat with (b - a)%nat by lia.
  rewrite drop_app_ge by lia.
  replace (String.length pre + a - String.length pre)%nat with a by lia.
  rewrite drop_app_le by lia.
  apply take_app_le. rewrite drop_length. lia.
Qed.

(** X16.  Round trip for a selection inside a text node that is the first
    child of its parent element: once the XPath engine resolves the anchor's
    path to that element, resolving the anchor [createHtmlAnchor] built
    against the unchanged document passes the context check and yields the
    range between the selection's own offsets, which covers exactly the
    selected text. *)
Theorem html_anchor_round_trip
    (evaluate : string -> Node -> option Node) (doc : Node) (parent : NodePath)
    (tag d : string) (siblings : list Node) (a b : nat)
    (Hparent : nodeAt doc parent = Some (ElementNode tag (TextNode d :: siblings)))
    (Hresolves : evaluate (getXPath doc (parent ++ [0%nat])%list) doc
                 = Some (ElementNode tag (TextNode d :: siblings)))
    (Hrange : (a <= b <= String.length d)%nat)
    (Hlen : strlen d < 2 ^ 32) :
  let range := mkRange (parent ++ [0%nat])%list a (parent ++ [0%nat])%list b in
  let anchor := createHtmlAnchor doc range in
  resolveHtmlRange evaluate anchor doc
  = Some (mkTextRange d (Z.of_nat a) (Z.of_nat b))
  /\ textRangeToString (mkTextRange d (Z.of_nat a) (Z.of_nat b))
     = rangeToString doc range.
Proof.
  intros range anchor.
  assert (Hchild : nodeAt doc (parent ++ [0%nat])%list = Some (TextNode d))
    by (rewrite nodeAt_app, Hparent; reflexivity).
  assert (Hsel : rangeToString doc range = take (b - a) (drop a d))
    by (apply rangeToString_in_text_node; assumption).
  split.
  - unfold resolveHtmlRange, resolveXPath, anchor, createHtmlAnchor. simpl.
    fold range. rewrite Hresolves. simpl.
    assert (Hctx : includes d (extractContext doc range 30) = true).
    { unfold extractContext, commonAncestorContainer. simpl.
      rewrite commonPrefix_same, Hchild. simpl. fold range. rewrite Hsel.
      destruct (indexOf d (take (b - a) (drop a d)) =? -1).
      - apply includes_take_drop.
      - apply includes_slice. }
    rewrite (includes_trans _ _ _ Hctx (includes_slice _ 10 (-10))). simpl.
    unfold htmlOffsetRange, setStartThenEnd. simpl.
    unfold strlen in *.
    rewrite !toUint32_small by lia.
    destruct (Z.gtb_spec (Z.of_nat a) (Z.of_nat (String.length d))); [lia|].
    destruct (Z.gtb_spec (Z.of_nat b) (Z.of_nat (String.length d))); [lia|].
    destruct (Z.ltb_spec (Z.of_nat b) (Z.of_nat a)); [lia|]. reflexivity.
  - rewrite Hsel. unfold textRangeToString. simpl. now apply slice_inside.
Qed.

Lemma html_anchor_round_trip_witness :
  resolveHtmlRange evaluateLocationPath foxAnchor foxDoc
  = Some (mkTextRange "The quick brown fox" 10 15)
  /\ textRangeToString (mkTextRange "The quick brown fox" 10 15)
     = rangeToString foxDoc foxSelection.
Proof.
  refine (html_anchor_round_trip evaluateLocationPath foxDoc [0%nat] "P"
            "The quick brown fox" [] 10 15 eq_refl eq_refl _ _).
  - simpl. lia.
  - vm_compute. reflexivity.
Defined.

(* ================================================================== *)
(** ** The PDF renderer *)
(* ================================================================== *)










(* ================================================================== *)
(** ** The HTML renderer's walk over the text nodes *)
(* ================================================================== *)

(** The text of a node is the concatenation of the text nodes below it. *)
Lemma textContent_descendants :
  forall n, textContent n = concatStrings (descendantTextNodes n).
Proof.
  fix IH 1. intros [d | tag kids]; simpl.
  - now rewrite append_nil_r.
  - induction kids as [|k kids IHk]; simpl; [reflexivity|].
    now rewrite concatStrings_app, <- IH, IHk.
Qed.

Lemma textContent_walker (tag : string) (kids : list Node) :
  textContent (ElementNode tag kids)
  = concatStrings (walkerTextNodes (ElementNode tag kids)).
Proof. apply (textContent_descendants (ElementNode tag kids)). Qed.

Lemma strlen_concat_nil : strlen (concatStrings []) = 0.
Proof. reflexivity. Qed.

Lemma strlen_concat_cons (d : string) (l : list string) :
  strlen (concatStrings (d :: l)) = strlen d + strlen (concatStrings l).
Proof. simpl. apply strlen_append. Qed.

(** Once the start node is known, the walk stops at the node that holds
    the end offset. *)
Lemma highlightWalk_end (rest : list string) (index : nat) (cur : Z)
    (start : nat * Z) (s e : Z) :
  cur < e -> e <= cur + strlen (concatStrings rest) ->
  exists F d R,
    rest = (F ++ d :: R)%list
    /\ highlightWalk rest index cur (Some start) s e
       = Some (start, ((index + List.length F)%nat,
                       e - (cur + strlen (concatStrings F))))
    /\ cur + strlen (concatStrings F) < e
       <= cur + strlen (concatStrings F) + strlen d.
Proof.
  revert index cur; induction rest as [|d rest IH]; intros index cur Hlo Hhi.
  - rewrite strlen_concat_nil in Hhi. lia.
  - cbn [highlightWalk]. rewrite strlen_concat_cons in Hhi.
    destruct (Z.geb_spec (cur + strlen d) e) as [Hhere | Hlater].
    + exists [], d, rest. rewrite strlen_concat_nil. cbn [List.length app].
      rewrite Nat.add_0_r, Z.add_0_r.
      split; [reflexivity|]. split; [reflexivity | lia].
    + destruct (IH (S index) (cur + strlen d)) as [F [d' [R [Hrest [Hwalk Hb]]]]];
        try lia.
      exists (d :: F), d', R. rewrite strlen_concat_cons. cbn [List.length].
      split; [now rewrite Hrest|]. split; [|lia].
      rewrite Hwalk. do 3 f_equal; lia.
Qed.

(** The walk from the start: it stops with the node that holds the start
    offset and the node that holds the end offset, which is the same node or
    a later one. *)
Lemma highlightWalk_start (rest : list string) (index : nat) (cur s e : Z) :
  cur <= s -> s <= e ->
  s < cur + strlen (concatStrings rest) -> e <= cur + strlen (concatStrings rest) ->
  (exists F d R,
      rest = (F ++ d :: R)%list
      /\ highlightWalk rest index cur None s e
         = Some (((index + List.length F)%nat, s - (cur + strlen (concatStrings F))),
                 ((index + List.length F)%nat, e - (cur + strlen (concatStrings F))))
      /\ cur + strlen (concatStrings F) <= s
      /\ e <= cur + strlen (concatStrings F) + strlen d)
  \/ (exists F d M d' R,
         rest = (F ++ d :: M ++ d' :: R)%list
         /\ highlightWalk rest index cur None s e
            = Some (((index + List.length F)%nat,
                     s - (cur + strlen (concatStrings F))),
                    ((index + List.length F + 1 + List.length M)%nat,
                     e - (cur + strlen (concatStrings F) + strlen d
                          + strlen (concatStrings M))))
         /\ cur + strlen (concatStrings F) <= s
            < cur + strlen (concatStrings F) + strlen d
         /\ cur + strlen (concatStrings F) + strlen d + strlen (concatStrings M) < e
            <= cur + strlen (concatStrings F) + strlen d
               + strlen (concatStrings M) + strlen d').
Proof.
  revert index cur; induction rest as [|d rest IH]; intros index cur Hcs Hse Hs He.
  - rewrite strlen_concat_nil in Hs. lia.
  - cbn [highlightWalk]. rewrite strlen_concat_cons in Hs, He.
    destruct (Z.gtb_spec (cur + strlen d) s) as [Hstart | Hskip].
    + destruct (Z.geb_spec (cur + strlen d) e) as [Hhere | Hlater].
      * left. exists [], d, rest. rewrite strlen_concat_nil. cbn [List.length app].
        rewrite Nat.add_0_r, Z.add_0_r.
        split; [reflexivity|]. split; [reflexivity | lia].
      * right.
        destruct (highlightWalk_end rest (S index) (cur + strlen d)
                    (index, s - cur) s e) as [M [d' [R [Hrest [Hwalk Hb]]]]];
          try lia.
        exists [], d, M, d', R. rewrite strlen_concat_nil. cbn [List.length app].
        rewrite Nat.add_0_r, Z.add_0_r.
        split; [now rewrite Hrest|]. split; [|lia].
        rewrite Hwalk. do 2 f_equal. f_equal; lia.
    + destruct (IH (S index) (cur + strlen d))
        as [[F [d1 [R [Hrest [Hwalk [Hlo Hhi]]]]]]
           | [F [d1 [M [d2 [R [Hrest [Hwalk [Hlo Hhi]]]]]]]]]; try lia.
      * left. exists (d :: F), d1, R. rewrite strlen_concat_cons. cbn [List.length].
        split; [now rewrite Hrest|]. split; [|lia].
        rewrite Hwalk. do 2 f_equal; f_equal; lia.
      * right. exists (d :: F), d1, M, d2, R. rewrite strlen_concat_cons.
        cbn [List.length].
        split; [now rewrite Hrest|]. split; [|lia].
        rewrite Hwalk. do 2 f_equal; f_equal; lia.
Qed.

(** Offsets that reach beyond the text: the walk ends without a result. *)
Lemma highlightWalk_end_none (rest : list string) (index : nat) (cur : Z)
    (start : nat * Z) (s e : Z) :
  cur + strlen (concatStrings rest) < e ->
  highlightWalk rest index cur (Some start) s e = None.
Proof.
  revert index cur; induction rest as [|d rest IH]; intros index cur H.
  - reflexivity.
  - cbn [highlightWalk]. rewrite strlen_concat_cons in H.
    pose proof (strlen_nonneg (concatStrings rest)).
    destruct (Z.geb_spec (cur + strlen d) e); [lia|].
    apply IH. lia.
Qed.

Lemma highlightWalk_start_none (rest : list string) (index : nat) (cur s e : Z) :
  cur + strlen (concatStrings rest) <= s \/ cur + strlen (concatStrings rest) < e ->
  highlightWalk rest index cur None s e = None.
Proof.
  revert index cur; induction rest as [|d rest IH]; intros index cur H.
  - reflexivity.
  - cbn [highlightWalk]. rewrite strlen_concat_cons in H.
    pose proof (strlen_nonneg (concatStrings rest)).
    pose proof (strlen_nonneg d).
    destruct (Z.gtb_spec (cur + strlen d) s) as [Hstart | Hskip].
    + destruct (Z.geb_spec (cur + strlen d) e); [lia|].
      apply highlightWalk_end_none. lia.
    + apply IH. lia.
Qed.

Lemma nth_middle_string (F R : list string) (d : string) :
  nth (List.length F) (F ++ d :: R)%list "" = d.
Proof. induction F as [|x F IH]; simpl; [reflexivity | exact IH]. Qed.

Lemma skipn_past (F X : list string) (d : string) :
  skipn (S (List.length F)) (F ++ d :: X)%list = X.
Proof. induction F as [|x F IH]; simpl; [reflexivity | exact IH]. Qed.

Lemma firstn_exact (M X : list string) :
  firstn (List.length M) (M ++ X)%list = M.
Proof. induction M as [|x M IH]; simpl; [reflexivity | now rewrite IH]. Qed.

Lemma slice_from_start (d : string) (b : Z) :
  0 <= b <= strlen d -> slice d 0 b = take (Z.to_nat b) d.
Proof.
  intros H. unfold slice. destruct (Z.ltb_spec b 0); [lia|].
  change (0 <? 0) with false. cbv iota. pose proof (strlen_nonneg d).
  rewrite (Z.min_l 0), (Z.min_l b) by lia. simpl drop. f_equal. lia.
Qed.

Lemma sliceFrom_drop (d : string) (a : Z) :
  0 <= a <= strlen d -> sliceFrom d a = drop (Z.to_nat a) d.
Proof.
  intros H. unfold sliceFrom, slice.
  destruct (Z.ltb_spec a 0); [lia|].
  destruct (Z.ltb_spec (strlen d) 0); [lia|].
  rewrite (Z.min_l a) by lia. rewrite Z.min_id.
  apply take_all. rewrite drop_length. unfold strlen in *. lia.
Qed.

(** The text between two boundary points in one node, or in two nodes, is
    the slice of the concatenated text between the corresponding offsets. *)
Lemma walkedText_same_node (F R : list string) (d : string) (s e : Z) :
  strlen (concatStrings F) <= s -> s <= e ->
  e <= strlen (concatStrings F) + strlen d ->
  walkedText (F ++ d :: R)%list
    ((List.length F, s - strlen (concatStrings F)),
     (List.length F, e - strlen (concatStrings F)))
  = slice (concatStrings (F ++ d :: R)%list) s e.
Proof.
  intros Hs Hse He. unfold walkedText. rewrite Nat.eqb_refl, nth_middle_string.
  rewrite concatStrings_app. simpl concatStrings.
  pose proof (strlen_nonneg (concatStrings F)) as HF.
  pose proof (strlen_nonneg d) as Hd.
  pose proof (strlen_nonneg (concatStrings R)) as HR.
  unfold slice. rewrite !strlen_append.
  set (P := strlen (concatStrings F)) in *.
  destruct (Z.ltb_spec (s - P) 0); [lia|]. destruct (Z.ltb_spec (e - P) 0); [lia|].
  destruct (Z.ltb_spec s 0); [lia|]. destruct (Z.ltb_spec e 0); [lia|].
  rewrite !Z.min_l by lia.
  rewrite drop_app_ge by (unfold P, strlen in *; lia).
  replace (Z.to_nat s - String.length (concatStrings F))%nat
    with (Z.to_nat (s - P)) by (unfold P, strlen in *; lia).
  rewrite drop_app_le by (unfold strlen in *; lia).
  replace (Z.to_nat (Z.max (e - s) 0)) with (Z.to_nat (Z.max (e - P - (s - P)) 0)) by lia.
  symmetry. apply take_app_le. rewrite drop_length. unfold strlen in *. lia.
Qed.

Lemma walkedText_two_nodes (F M R : list string) (d d' : string) (s e : Z) :
  strlen (concatStrings F) <= s < strlen (concatStrings F) + strlen d ->
  strlen (concatStrings F) + strlen d + strlen (concatStrings M) < e
  <= strlen (concatStrings F) + strlen d + strlen (concatStrings M) + strlen d' ->
  walkedText (F ++ d :: M ++ d' :: R)%list
    ((List.length F, s - strlen (concatStrings F)),
     ((List.length F + 1 + List.length M)%nat,
      e - (strlen (concatStrings F) + strlen d + strlen (concatStrings M))))
  = slice (concatStrings (F ++ d :: M ++ d' :: R)%list) s e.
Proof.
  intros Hs He. unfold walkedText.
  destruct (Nat.eqb_spec (List.length F) (List.length F + 1 + List.length M)); [lia|].
  destruct (Nat.ltb_spec (List.length F) (List.length F + 1 + List.length M)); [|lia].
  rewrite nth_middle_string.
  replace (List.length F + 1 + List.length M - List.length F - 1)%nat
    with (List.length M) by lia.
  rewrite skipn_past, firstn_exact.
  replace (F ++ d :: M ++ d' :: R)%list with ((F ++ d :: M) ++ d' :: R)%list
    by (rewrite <- app_assoc; reflexivity).
  replace (List.length F + 1 + List.length M)%nat with (List.length (F ++ d :: M)%list)
    by (rewrite length_app; simpl; lia).
  rewrite nth_middle_string.
  rewrite !concatStrings_app. simpl concatStrings.
  pose proof (strlen_nonneg (concatStrings F)) as HF.
  pose proof (strlen_nonneg d) as Hd. pose proof (strlen_nonneg d') as Hd'.
  pose proof (strlen_nonneg (concatStrings M)) as HM.
  pose proof (strlen_nonneg (concatStrings R)) as HR.
  set (P := strlen (concatStrings F)) in *.
  set (Q := strlen (concatStrings M)) in *.
  rewrite sliceFrom_drop by lia. rewrite slice_from_start by lia.
  unfold slice. rewrite !strlen_append. fold P Q.
  destruct (Z.ltb_spec s 0); [lia|]. destruct (Z.ltb_spec e 0); [lia|].
  rewrite !Z.min_l by lia.
  rewrite !append_assoc.
  rewrite drop_app_ge by (unfold P, strlen in *; lia).
  replace (Z.to_nat s - String.length (concatStrings F))%nat
    with (Z.to_nat (s - P)) by (unfold P, strlen in *; lia).
  rewrite drop_app_le by (unfold strlen in *; lia).
  rewrite take_app_ge by (rewrite drop_length; unfold P, Q, strlen in *; lia).
  f_equal. rewrite drop_length.
  rewrite take_app_ge by (unfold P, Q, strlen in *; lia).
  f_equal.
  rewrite take_app_le by (unfold P, Q, strlen in *; lia).
  f_equal. unfold P, Q, strlen in *. lia.
Qed.

Lemma nth_second_string (F M R : list string) (d d' : string) :
  nth (List.length F + 1 + List.length M) (F ++ d :: M ++ d' :: R)%list "" = d'.
Proof.
  replace (F ++ d :: M ++ d' :: R)%list with ((F ++ d :: M) ++ d' :: R)%list
    by (rewrite <- app_assoc; reflexivity).
  replace (List.length F + 1 + List.length M)%nat with (List.length (F ++ d :: M)%list)
    by (rewrite length_app; simpl; lia).
  apply nth_middle_string.
Qed.

(** X19.  [resolveHtmlHighlight] reads the stored offsets as offsets into
    the text of the element the path resolves to.  When that text (shorter
    than 2^32 code units) contains the context core and the offsets satisfy
    [0 <= start <= end <= length] with [start < length], the range it sets
    covers exactly the code units from [start] to [end] of the element's
    text, across however many text nodes they span; when the start is at or
    beyond the end of the text, or the end beyond it, there is no result. *)
Theorem resolveHtmlHighlight_covers_container_offsets
    (evaluate : string -> Node -> option Node) (doc : Node)
    (xpath context : string) (startOffset endOffset : Z)
    (tag : string) (kids : list Node)
    (Htarget : evaluate xpath doc = Some (ElementNode tag kids))
    (Hverified : includes (textContent (ElementNode tag kids))
                   (slice context 10 (-10)) = true)
    (Hlen : strlen (textContent (ElementNode tag kids)) < 2 ^ 32)
    (Hstart : 0 <= startOffset) :
  let text := textContent (ElementNode tag kids) in
  let anchor := mkHtmlAnchor xpath startOffset endOffset context in
  (startOffset <= endOffset <= strlen text -> startOffset < strlen text ->
   exists r,
     resolveHtmlHighlight evaluate doc anchor
     = Some (walkerTextNodes (ElementNode tag kids), r)
     /\ walkedText (walkerTextNodes (ElementNode tag kids)) r
        = slice text startOffset endOffset)
  /\ (strlen text <= startOffset \/ strlen text < endOffset ->
      resolveHtmlHighlight evaluate doc anchor = None).
Proof.
  intros text anchor.
  unfold resolveHtmlHighlight, anchor. simpl htmlXpath. simpl htmlContext.
  simpl htmlStartOffset. simpl htmlEndOffset.
  rewrite Htarget. cbv zeta. rewrite Hverified. simpl negb. cbv iota.
  assert (Htext : text = concatStrings (walkerTextNodes (ElementNode tag kids)))
    by apply textContent_walker.
  fold text in Hlen. rewrite Htext in *.
  set (nodes := walkerTextNodes (ElementNode tag kids)) in *.
  split.
  - intros Hse Hs.
    destruct (highlightWalk_start nodes 0 0 startOffset endOffset)
      as [[F [d [R [Hnodes [Hwalk [Hlo Hhi]]]]]]
         | [F [d [M [d' [R [Hnodes [Hwalk [Hlo Hhi]]]]]]]]]; try lia.
    + rewrite Hwalk. cbn [Nat.add]. rewrite !Z.add_0_l in *.
      rewrite Hnodes, nth_middle_string. rewrite Hnodes in Hlen.
      rewrite concatStrings_app, strlen_append, strlen_concat_cons in Hlen.
      pose proof (strlen_nonneg (concatStrings F)).
      pose proof (strlen_nonneg (concatStrings R)).
      pose proof (strlen_nonneg d).
      rewrite !Z.min_l by lia. rewrite !toUint32_small by lia.
      destruct (Z.gtb_spec (startOffset - strlen (concatStrings F)) (strlen d)); [lia|].
      destruct (Z.gtb_spec (endOffset - strlen (concatStrings F)) (strlen d)); [lia|].
      eexists. split; [reflexivity|].
      apply walkedText_same_node; lia.
    + rewrite Hwalk. cbn [Nat.add]. rewrite !Z.add_0_l in *.
      rewrite Hnodes, nth_middle_string, nth_second_string. rewrite Hnodes in Hlen.
      rewrite concatStrings_app, strlen_append, strlen_concat_cons,
        concatStrings_app, strlen_append, strlen_concat_cons in Hlen.
      pose proof (strlen_nonneg (concatStrings F)).
      pose proof (strlen_nonneg (concatStrings M)).
      pose proof (strlen_nonneg (concatStrings R)).
      pose proof (strlen_nonneg d). pose proof (strlen_nonneg d').
      rewrite !Z.min_l by lia. rewrite !toUint32_small by lia.
      destruct (Z.gtb_spec (startOffset - strlen (concatStrings F)) (strlen d)); [lia|].
      destruct (Z.gtb_spec
                  (endOffset - (strlen (concatStrings F) + strlen d
                                + strlen (concatStrings M))) (strlen d')); [lia|].
      eexists. split; [reflexivity|].
      apply walkedText_two_nodes; lia.
  - intros Hout. rewrite highlightWalk_start_none; [reflexivity | lia].
Qed.

Lemma resolveHtmlHighlight_covers_container_offsets_witness :
  exists r,
    resolveHtmlHighlight evaluateLocationPath inlineDoc
      (mkHtmlAnchor "/p[1]" 3 14 " new world")
    = Some (["Hello "; "brave"; " new world"], r)
    /\ walkedText ["Hello "; "brave"; " new world"] r
       = slice "Hello brave new world" 3 14.
Proof.
  assert (Hlen : strlen (textContent inlineDoc) < 2 ^ 32) by (vm_compute; reflexivity).
  assert (Hs : 0 <= 3) by lia.
  refine (proj1 (resolveHtmlHighlight_covers_container_offsets evaluateLocationPath
                   inlineDoc "/p[1]" " new world" 3 14 "P" _ eq_refl eq_refl Hlen Hs)
            _ _).
  - vm_compute. split; discriminate.
  - vm_compute. reflexivity.
Defined.

(* ================================================================== *)
(** ** The path [getXPath] writes leads back to the element *)
(* ================================================================== *)



















(* ================================================================== *)
(** ** The home page's delete handler *)
(* ================================================================== *)





(* ================================================================== *)
(** ** The renderers' context check, and the one-note invariant *)
(* ================================================================== *)

(** X22.  Both renderers suppress a highlight whose context core is not in
    the current text: [findHighlightRects] returns no rectangle and
    [resolveHtmlHighlight] no range, whatever the stored offsets are. *)
Theorem renderers_suppress_on_context_mismatch
    (context text : string)
    (Hmismatch : includes text (slice context 10 (-10)) = false) :
  (forall startOffset endOffset textSpans,
      findHighlightRects context startOffset endOffset textSpans text = [])
  /\ (forall evaluate doc xpath startOffset endOffset target,
         evaluate xpath doc = Some target ->
         textContent target = text ->
         resolveHtmlHighlight evaluate doc
           (mkHtmlAnchor xpath startOffset endOffset context) = None).
Proof.
  split.
  - intros. unfold findHighlightRects.
    now rewrite indexOf_includes, Hmismatch.
  - intros evaluate doc xpath s e target Htarget Htext.
    unfold resolveHtmlHighlight. simpl. rewrite Htarget, Htext.
    now rewrite Hmismatch.
Qed.

Lemma renderers_suppress_on_context_mismatch_witness :
  findHighlightRects "He said that the quick brown fox was gone" 21 26
    [mkTextSpan "The slow red fox" 0 0 90 12 12] "The slow red fox " = [].
Proof.
  exact (proj1 (renderers_suppress_on_context_mismatch
                  "He said that the quick brown fox was gone"
                  "The slow red fox " eq_refl)
           21 26 [mkTextSpan "The slow red fox" 0 0 90 12 12]).
Defined.

Lemma filter_filter_length_le {A : Type} (p q : A -> bool) (l : list A) :
  (List.length (filter p (filter q l)) <= List.length (filter p l))%nat.
Proof.
  induction l as [|x l IH]; simpl; [lia|].
  destruct (q x); simpl; destruct (p x); simpl; lia.
Qed.

(** X23.  The store never gains a second note for a highlight: when every
    highlight has at most one note, this is still so after [saveNote],
    [deleteNote], [deleteNotesByHighlight] and [deleteHighlight]. *)
Theorem one_note_per_highlight_is_kept
    (s : Store)
    (Hunique : forall h, (List.length (notesOf s h) <= 1)%nat) :
  (forall uuid now highlightId content h,
      (List.length (notesOf (fst (saveNote uuid now highlightId content s)) h) <= 1)%nat)
  /\ (forall id h, (List.length (notesOf (fst (deleteNote id s)) h) <= 1)%nat)
  /\ (forall id h, (List.length (notesOf (deleteNotesByHighlight id s) h) <= 1)%nat)
  /\ (forall id h, (List.length (notesOf (fst (deleteHighlight id s)) h) <= 1)%nat).
Proof.
  split; [|split; [|split]].
  - intros. apply saveNote_preserves_uniqueness. apply Hunique.
  - intros id h. unfold deleteNote, notesOf, getAllNotes.
    destruct (Nat.eqb _ _); simpl; [apply Hunique|].
    etransitivity; [apply filter_filter_length_le | apply Hunique].
  - intros id h. unfold deleteNotesByHighlight, notesOf, getAllNotes. simpl.
    etransitivity; [apply filter_filter_length_le | apply Hunique].
  - intros id h. unfold deleteHighlight, deleteNotesByHighlight, notesOf,
      getAllNotes, getAllHighlights.
    destruct (Nat.eqb _ _); simpl; [apply Hunique|].
    etransitivity; [apply filter_filter_length_le | apply Hunique].
Qed.

Lemma one_note_per_highlight_is_kept_witness :
  (List.length
     (notesOf (fst (saveNote "u2" 2 "H1" "second"
                      (fst (saveNote "u1" 1 "H1" "first" emptyStore)))) "H1") <= 1)%nat.
Proof.
  assert (Hempty : forall h, (List.length (notesOf emptyStore h) <= 1)%nat)
    by (intros h; simpl; lia).
  pose proof (proj1 (one_note_per_highlight_is_kept emptyStore Hempty)
                "u1" 1 "H1" "first") as Hfirst.
  exact (proj1 (one_note_per_highlight_is_kept _ Hfirst) "u2" 2 "H1" "second" "H1").
Defined.
